(** * Sales analytics dashboard: loader, filter and aggregations of [app.py]

    The dashboard reads a sales table, removes duplicate rows, parses the
    order dates, and computes for a selected year, set of regions and set of
    categories a handful of KPIs and grouped rollups.

    Modelling choices.
    - A data frame is the list of its rows, in index order; a column is the
      list obtained by projecting one field.
    - Amounts ([Sales], [Profit]) are exact rationals [Q]; two amounts are
      the same value when they are [Qeq]. Where the rounding of float64
      decides a property, the sums are given on float64 as well ([sum64],
      [category64], [region64]).
    - A missing value (NaT, NaN) is [None].
    - Python's true division is partial ([truediv] raises on a zero divisor),
      so that "never divides by zero" is a statement about the code.
    - The library calls ([drop_duplicates], boolean-mask indexing, [isin],
      [groupby(...).sum()], [sort_values], [head]) are modelled by their
      documented behaviour. *)

From Stdlib Require Import List String Ascii ZArith QArith Qabs Bool Lia.
From Stdlib Require Import Permutation Sorted OrderedTypeEx DecimalString.
From Stdlib Require Import Setoid Morphisms Lqa.
From Stdlib Require Import PrimFloat.
Import ListNotations.

Local Open Scope Q_scope.

(** ** Python results *)

Inductive exn : Type :=
| ZeroDivisionError.

Inductive py (A : Type) : Type :=
| Ok (a : A)
| Raise (e : exn).

Arguments Ok {A} a.
Arguments Raise {A} e.

Definition bind {A B : Type} (m : py A) (f : A -> py B) : py B :=
  match m with
  | Ok a => f a
  | Raise e => Raise e
  end.

Notation "x <- m ;; k" := (bind m (fun x => k))
  (at level 61, m at next level, right associativity).

(** [a / b] in Python. *)
Definition truediv (a b : Q) : py Q :=
  if Qeq_bool b 0 then Raise ZeroDivisionError else Ok (a / b).

(** [a > b] on numbers. *)
Definition Qgtb (a b : Q) : bool := negb (Qle_bool a b).

(** ** Dates *)

Record Timestamp : Type := mkTimestamp {
  ts_year : Z;
  ts_month : Z;
  ts_day : Z
}.

(** A monthly period, the value of [.dt.to_period("M")]. *)
Record Period : Type := mkPeriod {
  p_year : Z;
  p_month : Z
}.

Definition to_period_M (t : Timestamp) : Period :=
  {| p_year := ts_year t; p_month := ts_month t |}.

Definition digits (z : Z) : string :=
  NilZero.string_of_uint (N.to_uint (Z.to_N z)).

Fixpoint zeros (n : nat) : string :=
  match n with
  | O => EmptyString
  | S n' => String "0"%char (zeros n')
  end.

Definition zfill (width : nat) (s : string) : string :=
  String.append (zeros (width - String.length s)) s.

(** [str] of a monthly period: ["YYYY-MM"]. *)
Definition period_str (p : Period) : string :=
  String.append (zfill 4 (digits (p_year p)))
    (String "-"%char (zfill 2 (digits (p_month p)))).

(** ** Rows *)

(** A row of the CSV file as [read_csv] returns it: the order date is still
    text. [raw_others] holds the columns the dashboard never looks at; they
    count for duplicate detection. *)
Record RawRow : Type := mkRawRow {
  raw_order_date : string;
  raw_sales : Q;
  raw_profit : Q;
  raw_region : string;
  raw_category : string;
  raw_product_name : string;
  raw_others : list string
}.

(** A row of the frame [load_data] returns. Region, category and product
    name are present in every row; a date that did not parse is missing, and
    the year with it. *)
Record Row : Type := mkRow {
  Order_Date : option Timestamp;
  Sales : Q;
  Profit : Q;
  Region : string;
  Category : string;
  Product_Name : string;
  Others : list string;
  Year : option Z;
  Profit_Margin : Q
}.

Fixpoint list_eqb {A : Type} (eqb : A -> A -> bool) (l1 l2 : list A) : bool :=
  match l1, l2 with
  | [], [] => true
  | x :: t1, y :: t2 => eqb x y && list_eqb eqb t1 t2
  | _, _ => false
  end.

(** Two CSV rows are duplicates when all their fields hold equal values. *)
Definition raw_eqb (a b : RawRow) : bool :=
  String.eqb (raw_order_date a) (raw_order_date b)
  && Qeq_bool (raw_sales a) (raw_sales b)
  && Qeq_bool (raw_profit a) (raw_profit b)
  && String.eqb (raw_region a) (raw_region b)
  && String.eqb (raw_category a) (raw_category b)
  && String.eqb (raw_product_name a) (raw_product_name b)
  && list_eqb String.eqb (raw_others a) (raw_others b).

Definition option_eqb {A : Type} (eqb : A -> A -> bool) (a b : option A)
    : bool :=
  match a, b with
  | Some x, Some y => eqb x y
  | None, None => true
  | _, _ => false
  end.

Definition timestamp_eqb (a b : Timestamp) : bool :=
  Z.eqb (ts_year a) (ts_year b) && Z.eqb (ts_month a) (ts_month b)
  && Z.eqb (ts_day a) (ts_day b).

(** Full-row equality on loaded rows; two missing dates compare equal, as
    they do for [drop_duplicates]. *)
Definition row_eqb (a b : Row) : bool :=
  option_eqb timestamp_eqb (Order_Date a) (Order_Date b)
  && Qeq_bool (Sales a) (Sales b)
  && Qeq_bool (Profit a) (Profit b)
  && String.eqb (Region a) (Region b)
  && String.eqb (Category a) (Category b)
  && String.eqb (Product_Name a) (Product_Name b)
  && list_eqb String.eqb (Others a) (Others b)
  && option_eqb Z.eqb (Year a) (Year b)
  && Qeq_bool (Profit_Margin a) (Profit_Margin b).

(** ** Data loader (lines 40-47) *)

Section DropDuplicates.
Context {A : Type} (eqb : A -> A -> bool).

(** [DataFrame.drop_duplicates()], keep="first": a row is dropped when an
    equal row has been seen before it. *)
Fixpoint drop_duplicates_from (seen : list A) (l : list A) : list A :=
  match l with
  | [] => []
  | r :: t =>
      if existsb (eqb r) seen
      then drop_duplicates_from seen t
      else r :: drop_duplicates_from (r :: seen) t
  end.

Definition drop_duplicates (l : list A) : list A :=
  drop_duplicates_from [] l.
End DropDuplicates.

(** No row of [l] has an equal row before it. *)
Fixpoint no_duplicates {A : Type} (eqb : A -> A -> bool) (l : list A) : Prop :=
  match l with
  | [] => True
  | x :: t => (forall y, In y t -> eqb y x = false) /\ no_duplicates eqb t
  end.

(** All fields of two CSV rows hold equal values. *)
Definition same_fields (a b : RawRow) : Prop :=
  raw_order_date a = raw_order_date b
  /\ raw_sales a == raw_sales b
  /\ raw_profit a == raw_profit b
  /\ raw_region a = raw_region b
  /\ raw_category a = raw_category b
  /\ raw_product_name a = raw_product_name b
  /\ raw_others a = raw_others b.

Section Loader.
(** [pd.to_datetime(..., errors="coerce")] on one cell, for the format of
    the column: [None] is NaT, the value given to text that does not
    parse. *)
Variable to_datetime : string -> option Timestamp.

(** Lines 44-46 on one row: the parsed date, the year taken from it and
    the profit margin, [np.where(Sales != 0, Profit / Sales, 0)]. *)
Definition derive (r : RawRow) : Row :=
  let d := to_datetime (raw_order_date r) in
  {| Order_Date := d;
     Sales := raw_sales r;
     Profit := raw_profit r;
     Region := raw_region r;
     Category := raw_category r;
     Product_Name := raw_product_name r;
     Others := raw_others r;
     Year := option_map ts_year d;
     Profit_Margin :=
       if negb (Qeq_bool (raw_sales r) 0)
       then raw_profit r / raw_sales r
       else 0 |}.

Definition load_data (csv : list RawRow) : list Row :=
  map derive (drop_duplicates raw_eqb csv).
End Loader.

(** ** Filter (lines 63-69) *)

(** [col == y] on a numeric column with missing values: NaN equals nothing. *)
Definition eq_scalar (col : list (option Z)) (y : Z) : list bool :=
  map (fun v => match v with Some x => Z.eqb x y | None => false end) col.

(** [col.isin(values)]. *)
Definition isin (col : list string) (values : list string) : list bool :=
  map (fun v => existsb (String.eqb v) values) col.

(** [a & b] on boolean columns. *)
Fixpoint mask_and (a b : list bool) : list bool :=
  match a, b with
  | x :: a', y :: b' => (x && y) :: mask_and a' b'
  | _, _ => []
  end.

(** [df[mask]]: the rows whose mask entry is true, in order. *)
Fixpoint getitem {A : Type} (df : list A) (mask : list bool) : list A :=
  match df, mask with
  | r :: df', b :: mask' =>
      if b then r :: getitem df' mask' else getitem df' mask'
  | _, _ => []
  end.

Definition filtered_df (df : list Row) (selected_year : Z)
    (selected_region selected_category : list string) : list Row :=
  getitem df
    (mask_and
       (mask_and (eq_scalar (map Year df) selected_year)
                 (isin (map Region df) selected_region))
       (isin (map Category df) selected_category)).

Definition previous_df (df : list Row) (selected_year : Z) : list Row :=
  getitem df (eq_scalar (map Year df) (selected_year - 1)).

(** The predicate a record has to meet to be in the filtered view. *)
Definition selected (y : Z) (regions categories : list string) (r : Row)
    : Prop :=
  Year r = Some y /\ In (Region r) regions /\ In (Category r) categories.

(** The three masks of lines 64-66 evaluated on one row. *)
Definition year_is (y : Z) (r : Row) : bool :=
  match Year r with Some x => Z.eqb x y | None => false end.

Definition selectedb (y : Z) (regions categories : list string) (r : Row)
    : bool :=
  year_is y r
  && existsb (String.eqb (Region r)) regions
  && existsb (String.eqb (Category r)) categories.

(** [subseq l1 l2]: [l1] is [l2] with some entries left out, order kept. *)
Inductive subseq {A : Type} : list A -> list A -> Prop :=
| subseq_nil : subseq [] []
| subseq_skip (x : A) (l1 l2 : list A) : subseq l1 l2 -> subseq l1 (x :: l2)
| subseq_keep (x : A) (l1 l2 : list A) :
    subseq l1 l2 -> subseq (x :: l1) (x :: l2).

(** ** KPIs (lines 71-76) *)

(** [Series.sum()]. *)
Fixpoint sum (col : list Q) : Q :=
  match col with
  | [] => 0
  | x :: t => x + sum t
  end.

Definition total_revenue (view : list Row) : Q := sum (map Sales view).
Definition total_profit (view : list Row) : Q := sum (map Profit view).

(** Line 73. *)
Definition margin (view : list Row) : py Q :=
  if negb (Qeq_bool (total_revenue view) 0)
  then truediv (total_profit view) (total_revenue view)
  else Ok 0.

(** The value shown in the third card, [margin * 100] (line 101). *)
Definition margin_percent (view : list Row) : py Q :=
  m <- margin view ;; Ok (m * 100).

Definition prev_revenue (previous : list Row) : Q := sum (map Sales previous).

(** Line 76. *)
Definition revenue_growth (view previous : list Row) : py Q :=
  if negb (Qeq_bool (prev_revenue previous) 0)
  then q <- truediv (total_revenue view - prev_revenue previous)
                    (prev_revenue previous) ;;
       Ok (q * 100)
  else Ok 0.

(** ** Grouped rollups (lines 108-190) *)

(** Group keys are ordered; [groupby] returns its groups by ascending key. *)
Class KeyCmp (K : Type) : Type := kcmp : K -> K -> comparison.

Class KeyOrder (K : Type) {C : KeyCmp K} : Prop := {
  kcmp_eq : forall a b : K, kcmp a b = Eq <-> a = b;
  kcmp_antisym : forall a b : K, kcmp a b = CompOpp (kcmp b a);
  kcmp_trans : forall a b c : K, kcmp a b = Lt -> kcmp b c = Lt -> kcmp a c = Lt
}.

#[export] Instance string_cmp : KeyCmp string := String.compare.

#[export] Instance period_cmp : KeyCmp Period := fun a b =>
  match Z.compare (p_year a) (p_year b) with
  | Eq => Z.compare (p_month a) (p_month b)
  | c => c
  end.

Section GroupBy.
Context {R K V : Type} {C : KeyCmp K} (add : V -> V -> V).

(** Add one value to the running sum of its group; the groups are kept by
    ascending key. *)
Fixpoint group_add (k : K) (v : V) (acc : list (K * V)) : list (K * V) :=
  match acc with
  | [] => [(k, v)]
  | (k', s) :: rest =>
      match kcmp k k' with
      | Lt => (k, v) :: acc
      | Eq => (k', add s v) :: rest
      | Gt => (k', s) :: group_add k v rest
      end
  end.

Definition group_step (key : R -> option K) (val : R -> V)
    (acc : list (K * V)) (r : R) : list (K * V) :=
  match key r with
  | Some k => group_add k (val r) acc
  | None => acc
  end.

(** [view.groupby(key)[val].sum()]: rows with a missing key are left out
    (dropna), every other row adds its value to its group. *)
Definition groupby_sum (key : R -> option K) (val : R -> V)
    (view : list R) : list (K * V) :=
  fold_left (group_step key val) view [].
End GroupBy.

(** Chronological order of monthly periods. *)
Definition period_lt (a b : Period) : Prop :=
  (p_year a < p_year b)%Z \/ (p_year a = p_year b /\ (p_month a < p_month b)%Z).

(** The rows of a group. *)
Definition in_group {R K : Type} {C : KeyCmp K} (key : R -> option K) (k : K)
    (r : R) : bool :=
  match key r with
  | Some k' => match kcmp k' k with Eq => true | _ => false end
  | None => false
  end.

Definition add2 (a b : Q * Q) : Q * Q := (fst a + fst b, snd a + snd b).

(** [view["Order Date"].dt.to_period("M")] on one row. *)
Definition month_of (r : Row) : option Period :=
  option_map to_period_M (Order_Date r).

(** Lines 108-113, before the periods are turned into text. *)
Definition monthly_periods (view : list Row) : list (Period * Q) :=
  groupby_sum Qplus month_of Sales view.

(** Lines 108-114. *)
Definition monthly (view : list Row) : list (string * Q) :=
  map (fun e => (period_str (fst e), snd e)) (monthly_periods view).

(** Lines 130-134. *)
Definition category (view : list Row) : list (string * Q) :=
  groupby_sum Qplus (fun r => Some (Category r)) Profit view.

(** Lines 154-158. *)
Definition region (view : list Row) : list (string * (Q * Q)) :=
  groupby_sum add2 (fun r => Some (Region r)) (fun r => (Sales r, Profit r))
    view.

(** *** Sorting by value *)

(** Insertion of [x] before the first entry that is not smaller: the sort
    numpy runs on short arrays. *)
Fixpoint insert_asc {K : Type} (x : K * Q) (l : list (K * Q)) : list (K * Q) :=
  match l with
  | [] => [x]
  | y :: t =>
      if Qle_bool (snd x) (snd y) then x :: y :: t else y :: insert_asc x t
  end.

Fixpoint argsort_asc {K : Type} (l : list (K * Q)) : list (K * Q) :=
  match l with
  | [] => []
  | x :: t => insert_asc x (argsort_asc t)
  end.

(** [Series.sort_values(ascending=False)], as pandas computes it: reverse,
    sort ascending, reverse. *)
Definition sort_values_desc {K : Type} (l : list (K * Q)) : list (K * Q) :=
  rev (argsort_asc (rev l)).

(** [Series.head(n)]. *)
Definition head {A : Type} (n : nat) (l : list A) : list A := firstn n l.

Section TopProducts.
(** The sort behind [sort_values]; pandas' default "quicksort" promises a
    sorted rearrangement and nothing about ties. *)
Variable sorter : list (string * Q) -> list (string * Q).

Definition product_sales (view : list Row) : list (string * Q) :=
  groupby_sum Qplus (fun r => Some (Product_Name r)) Sales view.

Definition top_products_with (n : nat) (view : list Row) : list (string * Q) :=
  head n (sorter (product_sales view)).
End TopProducts.

(** Lines 184-190 with [n] in place of 5. *)
Definition top_products_n (n : nat) (view : list Row) : list (string * Q) :=
  top_products_with sort_values_desc n view.

Definition top_products (view : list Row) : list (string * Q) :=
  top_products_n 5 view.

(** Number of distinct values of a column ([nunique]). *)
Definition nunique (col : list string) : nat :=
  List.length (nodup string_dec col).

(** Order of entries by value, largest first. *)
Definition value_ge {K : Type} (a b : K * Q) : Prop := snd b <= snd a.

(** ** Growth banner (lines 207-210) *)

Inductive banner : Type :=
| Increased (percent : Q)   (* st.success: "Revenue increased by ..." *)
| Declined (percent : Q).   (* st.error: "Revenue declined by ..." *)

Definition growth_banner (g : Q) : banner :=
  if Qgtb g 0 then Increased g else Declined (Qabs g).

(** Lines 76 and 207-210 together. *)
Definition growth_report (view previous : list Row) : py banner :=
  g <- revenue_growth view previous ;; Ok (growth_banner g).

(** ** The tie rule as the specification words it *)

(** Position of the first occurrence of [x] in [l]. *)
Fixpoint first_index (x : string) (l : list string) : nat :=
  match l with
  | [] => O
  | y :: t => if String.eqb x y then O else S (first_index x t)
  end.

(** Entries with equal sums come in the order in which their product names
    first occur in the view. *)
Definition ties_by_first_seen (view : list Row) (res : list (string * Q))
    : Prop :=
  forall (i j : nat) (a b : string * Q),
    (i < j)%nat ->
    nth_error res i = Some a ->
    nth_error res j = Some b ->
    snd a == snd b ->
    (first_index (fst a) (map Product_Name view)
     < first_index (fst b) (map Product_Name view))%nat.

(** ** Calendar months *)

(** The order date of the record falls in the calendar month [p]. *)
Definition in_month (p : Period) (r : Row) : bool :=
  match Order_Date r with
  | Some t => Z.eqb (ts_year t) (p_year p) && Z.eqb (ts_month t) (p_month p)
  | None => false
  end.

(** A month of a year of four digits. *)
Definition calendar_month (p : Period) : Prop :=
  (1000 <= p_year p <= 9999)%Z /\ (1 <= p_month p <= 12)%Z.

(** ** The sums as the program computes them: float64 *)










(** ** Sidebar choices (lines 55-61) *)

#[export] Instance Z_cmp : KeyCmp Z := Z.compare.

(** [Series.dropna()]. *)
Fixpoint dropna {A : Type} (col : list (option A)) : list A :=
  match col with
  | [] => []
  | Some x :: t => x :: dropna t
  | None :: t => dropna t
  end.

(** [Series.unique()]: the values in the order of their first appearance. *)
Definition unique {A : Type} (eqb : A -> A -> bool) (col : list A) : list A :=
  drop_duplicates eqb col.

Fixpoint insert_sorted {K : Type} {C : KeyCmp K} (x : K) (l : list K) : list K :=
  match l with
  | [] => [x]
  | y :: t =>
      match kcmp x y with
      | Gt => y :: insert_sorted x t
      | _ => x :: y :: t
      end
  end.

(** [sorted(values)]. *)
Definition sorted {K : Type} {C : KeyCmp K} (values : list K) : list K :=
  fold_right insert_sorted [] values.

(** Lines 55-57. *)
Definition years (df : list Row) : list Z :=
  sorted (unique Z.eqb (dropna (map Year df))).

Definition regions (df : list Row) : list string :=
  sorted (unique String.eqb (map Region df)).

Definition categories (df : list Row) : list string :=
  sorted (unique String.eqb (map Category df)).

(** [st.selectbox(label, options, index)] before any interaction: the option
    at [index]; there is none when the index is out of range. *)
Definition selectbox {A : Type} (options : list A) (index : Z) : option A :=
  if (index <? 0)%Z then None else nth_error options (Z.to_nat index).

(** Line 59: the year offered first, [index=len(years)-1]. *)
Definition default_year (df : list Row) : option Z :=
  selectbox (years df) (Z.of_nat (List.length (years df)) - 1).

(** ** Animated cards (lines 78-90) *)

(** [np.linspace(start, stop, num)]: [num] evenly spaced samples, the last
    one set to [stop]. *)
Definition linspace (start stop : Q) (num : nat) : list Q :=
  match num with
  | O => []
  | S O => [start]
  | S div =>
      let step := (stop - start) / inject_Z (Z.of_nat div) in
      map (fun k => inject_Z (Z.of_nat k) * step + start) (seq 0 div) ++ [stop]
  end.

(** What one call of [placeholder.markdown] shows: the label, the text of
    the number and the suffix. *)
Record Card : Type := mkCard {
  card_label : string;
  card_number : string;
  card_suffix : string
}.

Section AnimatedMetric.
(** The text [f"{i:,.0f}"] of a number: rounded to a whole number, with
    thousands separators. *)
Variable fmt : Q -> string.

(** The cards [animated_metric] writes into its placeholder, in order. *)
Definition animated_metric (label : string) (value : Q) (suffix : string)
    : list Card :=
  map (fun i => mkCard label (fmt i) suffix) (linspace 0 value 40).
End AnimatedMetric.

(** A placeholder shows what was written last. *)
Definition placeholder_after (writes : list Card) : option Card :=
  fold_left (fun _ c => Some c) writes None.

(** ** Sample data *)

Local Open Scope string_scope.

(** A parser for ISO dates of the sample rows; any other text is NaT. *)
Definition sample_to_datetime (s : string) : option Timestamp :=
  if String.eqb s "2023-01-15" then Some (mkTimestamp 2023 1 15)
  else if String.eqb s "2023-03-02" then Some (mkTimestamp 2023 3 2)
  else if String.eqb s "2022-11-30" then Some (mkTimestamp 2022 11 30)
  else None.

(** A row whose date does not parse. *)
Definition unparsed_row : RawRow :=
  mkRawRow "not a date" 40 5 "East" "Tech" "Cable" ["3"].

(** Five rows: the third repeats the first, the fourth has no date. *)
Definition sample_csv : list RawRow :=
  [ mkRawRow "2023-01-15" 100 20 "East" "Tech" "Phone" ["1"];
    mkRawRow "2023-03-02" 200 (-50) "West" "Office" "Paper" ["2"];
    mkRawRow "2023-01-15" 100 20 "East" "Tech" "Phone" ["1"];
    unparsed_row;
    mkRawRow "2022-11-30" 150 30 "West" "Tech" "Phone" ["4"] ].

Definition sample_df : list Row := load_data sample_to_datetime sample_csv.

(** Two rows that differ in the text of a date that does not parse. *)
Definition unparsed_csv : list RawRow :=
  [ unparsed_row; mkRawRow "n/a" 40 5 "East" "Tech" "Cable" ["3"] ].

(** Two products with the same sales, "Binder" met before "Anchor", and the
    same two orders in the other row order. *)
Definition tie_csv : list RawRow :=
  [ mkRawRow "2023-01-15" 10 1 "East" "Tech" "Binder" ["1"];
    mkRawRow "2023-03-02" 10 2 "East" "Tech" "Anchor" ["2"] ].

Definition tie_view : list Row :=
  filtered_df (load_data sample_to_datetime tie_csv) 2023 ["East"] ["Tech"].

Definition tie_view_swapped : list Row :=
  filtered_df (load_data sample_to_datetime (rev tie_csv)) 2023
    ["East"] ["Tech"].

(** Two years of returns only: the sales are negative. *)
Definition refund_csv : list RawRow :=
  [ mkRawRow "2022-11-30" (-50) (-5) "East" "Tech" "Phone" ["1"];
    mkRawRow "2023-01-15" (-80) (-8) "East" "Tech" "Phone" ["2"] ].

Definition refund_df : list Row := load_data sample_to_datetime refund_csv.


Local Close Scope string_scope.


(** * Properties *)

(** ** Selection by a boolean mask *)

Lemma mask_and_map {A : Type} (p q : A -> bool) (l : list A) :
  mask_and (map p l) (map q l) = map (fun x => p x && q x) l.
Proof.
  induction l as [|x l IH]; simpl; [reflexivity|].
  now rewrite IH.
Qed.

Lemma getitem_map {A : Type} (p : A -> bool) (l : list A) :
  getitem l (map p l) = filter p l.
Proof.
  induction l as [|x l IH]; simpl; [reflexivity|].
  rewrite IH. reflexivity.
Qed.

Lemma subseq_filter {A : Type} (p : A -> bool) (l : list A) :
  subseq (filter p l) l.
Proof.
  induction l as [|x l IH]; simpl.
  - constructor.
  - destruct (p x); now constructor.
Qed.

Lemma filter_split_perm {A : Type} (p : A -> bool) (l : list A) :
  Permutation (filter p l ++ filter (fun x => negb (p x)) l) l.
Proof.
  induction l as [|x l IH]; simpl; [constructor|].
  destruct (p x); simpl.
  - now constructor.
  - apply Permutation_sym, Permutation_cons_app, Permutation_sym, IH.
Qed.

Lemma year_is_spec (y : Z) (r : Row) : year_is y r = true <-> Year r = Some y.
Proof.
  unfold year_is. destruct (Year r) as [x|].
  - rewrite Z.eqb_eq. split; [now intros ->|now intros [= ->]].
  - split; discriminate.
Qed.

Lemma isin_spec (v : string) (values : list string) :
  existsb (String.eqb v) values = true <-> In v values.
Proof.
  rewrite existsb_exists. split.
  - intros (x & Hx & E). apply String.eqb_eq in E. now subst.
  - intros H. exists v. split; [assumption|apply String.eqb_refl].
Qed.

Lemma selectedb_spec (y : Z) (regs cats : list string) (r : Row) :
  selectedb y regs cats r = true <-> selected y regs cats r.
Proof.
  unfold selectedb, selected.
  rewrite !andb_true_iff, year_is_spec, !isin_spec. tauto.
Qed.

Lemma filtered_df_filter (D : list Row) (y : Z) (regs cats : list string) :
  filtered_df D y regs cats = filter (selectedb y regs cats) D.
Proof.
  unfold filtered_df, eq_scalar, isin.
  rewrite !map_map.
  rewrite (mask_and_map
             (fun r => match Year r with Some x => Z.eqb x y | None => false end)
             (fun r => existsb (String.eqb (Region r)) regs)).
  rewrite (mask_and_map
             (fun r => match Year r with Some x => Z.eqb x y | None => false end
                       && existsb (String.eqb (Region r)) regs)
             (fun r => existsb (String.eqb (Category r)) cats)).
  apply getitem_map.
Qed.

Lemma previous_df_filter (D : list Row) (y : Z) :
  previous_df D y = filter (year_is (y - 1)) D.
Proof.
  unfold previous_df, eq_scalar. rewrite map_map.
  apply (getitem_map (year_is (y - 1))).
Qed.

(** C1. The filtered view is exactly the records of the dataset whose year
    is the selected one, whose region is among the selected regions and
    whose category is among the selected categories: it is the dataset with
    the other records left out (order and repetitions kept), a record is in
    it if and only if it is in the dataset and meets the three conditions,
    and the records left out, which together with the view make up the
    dataset, never meet all three. *)
Theorem filtered_df_exact (D : list Row) (y : Z) (regs cats : list string) :
  filtered_df D y regs cats = filter (selectedb y regs cats) D
  /\ subseq (filtered_df D y regs cats) D
  /\ (forall r, In r (filtered_df D y regs cats)
                <-> In r D /\ selected y regs cats r)
  /\ Permutation
       (filtered_df D y regs cats
        ++ filter (fun r => negb (selectedb y regs cats r)) D) D
  /\ (forall r, In r (filter (fun r => negb (selectedb y regs cats r)) D)
                -> ~ selected y regs cats r).
Proof.
  rewrite filtered_df_filter. split; [reflexivity|].
  split; [apply subseq_filter|].
  split; [|split].
  - intros r. rewrite filter_In, selectedb_spec. reflexivity.
  - apply filter_split_perm.
  - intros r Hr. apply filter_In in Hr as [_ Hn].
    rewrite <- selectedb_spec. intros E. rewrite E in Hn. discriminate.
Qed.

(** C6. The comparison view for year [y] is exactly the records of the
    dataset whose year is [y - 1]; the selected regions and categories play
    no part in it, so it holds every record of that year that a filter on
    regions and categories would keep, and those it would drop as well. *)
Theorem previous_df_exact (D : list Row) (y : Z) :
  previous_df D y = filter (year_is (y - 1)) D
  /\ subseq (previous_df D y) D
  /\ (forall r, In r (previous_df D y) <-> In r D /\ Year r = Some (y - 1)%Z)
  /\ (forall regs cats r,
        In r D -> Year r = Some (y - 1)%Z ->
        In r (previous_df D y)
        /\ (In r (filtered_df D (y - 1) regs cats)
            <-> In (Region r) regs /\ In (Category r) cats)).
Proof.
  rewrite previous_df_filter. split; [reflexivity|].
  split; [apply subseq_filter|].
  split.
  - intros r. rewrite filter_In, year_is_spec. reflexivity.
  - intros regs cats r HD HY. split.
    + apply filter_In. split; [assumption|now apply year_is_spec].
    + rewrite filtered_df_filter, filter_In, selectedb_spec.
      unfold selected. tauto.
Qed.

(** ** Margin and growth *)

Lemma Qeq_bool_false_iff (x y : Q) : Qeq_bool x y = false <-> ~ x == y.
Proof.
  rewrite <- Qeq_bool_iff. destruct (Qeq_bool x y); split; congruence.
Qed.

Lemma margin_percent_cases (view : list Row) :
  (total_revenue view == 0 /\ margin_percent view = Ok 0)
  \/ (~ total_revenue view == 0
      /\ margin_percent view
         = Ok (total_profit view / total_revenue view * 100)).
Proof.
  unfold margin_percent, margin, truediv.
  destruct (Qeq_bool (total_revenue view) 0) eqn:E; simpl.
  - left. split; [now apply Qeq_bool_iff|reflexivity].
  - right. split; [now apply Qeq_bool_false_iff|reflexivity].
Qed.

Lemma revenue_growth_cases (view previous : list Row) :
  (prev_revenue previous == 0 /\ revenue_growth view previous = Ok 0)
  \/ (~ prev_revenue previous == 0
      /\ revenue_growth view previous
         = Ok ((total_revenue view - prev_revenue previous)
               / prev_revenue previous * 100)).
Proof.
  unfold revenue_growth, truediv.
  destruct (Qeq_bool (prev_revenue previous) 0) eqn:E; simpl.
  - left. split; [now apply Qeq_bool_iff|reflexivity].
  - right. split; [now apply Qeq_bool_false_iff|reflexivity].
Qed.

(** C2. For every view and comparison view, whatever the signs and sizes of
    the amounts, the margin percent and the growth percent are computed
    without raising; each is exactly 0 when its denominator is 0, and
    otherwise the margin percent is totalProfit / totalRevenue * 100 and the
    growth percent is (currentRevenue - priorRevenue) / priorRevenue * 100. *)
Theorem margin_growth_safe (view previous : list Row) :
  exists m g : Q,
    margin_percent view = Ok m
    /\ revenue_growth view previous = Ok g
    /\ (total_revenue view == 0 -> m = 0)
    /\ (~ total_revenue view == 0
        -> m = total_profit view / total_revenue view * 100)
    /\ (prev_revenue previous == 0 -> g = 0)
    /\ (~ prev_revenue previous == 0
        -> g = (total_revenue view - prev_revenue previous)
               / prev_revenue previous * 100).
Proof.
  destruct (margin_percent_cases view) as [[Z1 E1]|[N1 E1]];
    destruct (revenue_growth_cases view previous) as [[Z2 E2]|[N2 E2]];
    rewrite E1, E2; eexists; eexists;
    (split; [reflexivity|]); (split; [reflexivity|]);
    repeat split; intros; try reflexivity; contradiction.
Qed.

(** ** Growth banner *)

Lemma Qgtb_spec (a b : Q) : Qgtb a b = true <-> b < a.
Proof.
  unfold Qgtb. rewrite negb_true_iff.
  destruct (Qle_bool a b) eqn:E.
  - apply Qle_bool_iff in E. split; [discriminate|].
    intros H. exfalso. now apply (Qlt_not_le _ _ H).
  - split; [intros _|reflexivity].
    apply Qnot_le_lt. intros H. apply Qle_bool_iff in H. congruence.
Qed.

(** C10. For every view and comparison view, the banner reports an increase
    by the growth percentage exactly when that percentage is strictly
    positive, and in every other case a decline by its absolute value. In
    particular, when the prior-year revenue is 0 the growth is the default 0
    and the report is a decline by 0, whatever the current revenue. *)
Theorem growth_banner_direction (view previous : list Row) :
  exists g : Q,
    revenue_growth view previous = Ok g
    /\ (0 < g -> growth_report view previous = Ok (Increased g))
    /\ (~ 0 < g -> growth_report view previous = Ok (Declined (Qabs g)))
    /\ (forall p, growth_report view previous = Ok (Increased p) ->
                  0 < g /\ p = g)
    /\ (forall p, growth_report view previous = Ok (Declined p) ->
                  ~ 0 < g /\ p = Qabs g)
    /\ (prev_revenue previous == 0 ->
        g = 0 /\ growth_report view previous = Ok (Declined 0)).
Proof.
  unfold growth_report.
  destruct (revenue_growth_cases view previous) as [[Z0 E]|[N E]];
    rewrite E; eexists; (split; [reflexivity|]); simpl; unfold growth_banner.
  - change (Qgtb 0 0) with false. simpl.
    split; [intros H; discriminate H|]. split; [reflexivity|].
    split; [discriminate|].
    split; [intros p [= <-]; split; [discriminate|reflexivity]|].
    intros _. split; reflexivity.
  - set (g := (total_revenue view - prev_revenue previous)
              / prev_revenue previous * 100).
    pose proof (Qgtb_spec g 0) as S.
    destruct (Qgtb g 0) eqn:G.
    + assert (P : 0 < g) by now apply S.
      split; [reflexivity|]. split; [contradiction|].
      split; [intros p [= <-]; split; [exact P|reflexivity]|].
      split; [discriminate|]. intros Z0. contradiction.
    + assert (P : ~ 0 < g) by (intros H; apply S in H; discriminate).
      split; [contradiction|]. split; [reflexivity|].
      split; [discriminate|].
      split; [intros p [= <-]; split; [exact P|reflexivity]|].
      intros Z0. contradiction.
Qed.

(** ** Orders on group keys *)

#[export] Instance string_order : KeyOrder string.
Proof.
  split.
  - intros a b. apply String_as_OT.cmp_eq.
  - intros a b. apply String.compare_antisym.
  - intros a b c H1 H2. apply String_as_OT.cmp_lt.
    apply String_as_OT.cmp_lt in H1, H2.
    exact (String_as_OT.lt_trans _ _ _ H1 H2).
Qed.

Lemma period_cmp_lt (a b : Period) : kcmp a b = Lt <-> period_lt a b.
Proof.
  unfold kcmp, period_cmp, period_lt.
  destruct (Z.compare_spec (p_year a) (p_year b)) as [E|L|G].
  - rewrite Z.compare_lt_iff. lia.
  - split; [intros _; now left|reflexivity].
  - split; [discriminate|lia].
Qed.

#[export] Instance period_order : KeyOrder Period.
Proof.
  split.
  - intros [ya ma] [yb mb]. unfold kcmp, period_cmp. simpl.
    destruct (Z.compare_spec ya yb) as [E|L|G].
    + rewrite Z.compare_eq_iff. subst. split; [now intros ->|now intros [= ->]].
    + split; [discriminate|intros [= -> _]; lia].
    + split; [discriminate|intros [= -> _]; lia].
  - intros a b. unfold kcmp, period_cmp.
    rewrite (Z.compare_antisym (p_year a) (p_year b)).
    rewrite (Z.compare_antisym (p_month a) (p_month b)).
    destruct (p_year a ?= p_year b)%Z; simpl;
      [now rewrite CompOpp_involutive|reflexivity|reflexivity].
  - intros a b c. rewrite !period_cmp_lt. unfold period_lt. lia.
Qed.

(** ** Sums *)

Lemma sum_app (l1 l2 : list Q) : sum (l1 ++ l2) == sum l1 + sum l2.
Proof.
  induction l1 as [|x l1 IH]; simpl.
  - ring.
  - rewrite IH. ring.
Qed.

Lemma filter_none {A : Type} (p : A -> bool) (l : list A) :
  (forall x, In x l -> p x = false) -> filter p l = [].
Proof.
  induction l as [|x l IH]; simpl; intros H; [reflexivity|].
  rewrite (H x (or_introl eq_refl)). apply IH. intros y Hy. apply H. now right.
Qed.

(** ** Grouping *)

Section KeyFacts.
Context {R K : Type} {C : KeyCmp K} {O : KeyOrder K}.

Lemma kcmp_refl (k : K) : kcmp k k = Eq.
Proof. now apply kcmp_eq. Qed.

Lemma kcmp_gt_lt (a b : K) : kcmp a b = Gt -> kcmp b a = Lt.
Proof. intros H. rewrite kcmp_antisym, H. reflexivity. Qed.

Lemma klt_irrefl (k : K) : ~ kcmp k k = Lt.
Proof. rewrite kcmp_refl. discriminate. Qed.

Lemma in_group_spec (key : R -> option K) (k : K) (r : R) :
  in_group key k r = true <-> key r = Some k.
Proof.
  unfold in_group. destruct (key r) as [k'|]; [|split; discriminate].
  destruct (kcmp k' k) eqn:E.
  - apply kcmp_eq in E. subst. tauto.
  - split; [discriminate|]. intros [= ->]. rewrite kcmp_refl in E. discriminate.
  - split; [discriminate|]. intros [= ->]. rewrite kcmp_refl in E. discriminate.
Qed.

End KeyFacts.

Section GroupByFacts.
Context {R K V : Type} {C : KeyCmp K} {O : KeyOrder K}.
Variable add : V -> V -> V.
Variable m : V -> Q.
Hypothesis m_add : forall a b, m (add a b) == m a + m b.

Local Abbreviation klt := (fun a b : K => kcmp a b = Lt).
Local Abbreviation keys acc := (map fst acc).
Local Abbreviation msum acc := (sum (map (fun e => m (snd e)) acc)).

Lemma group_add_keys (k : K) (v : V) (acc : list (K * V)) (k' : K) :
  In k' (keys (group_add add k v acc)) <-> k' = k \/ In k' (keys acc).
Proof.
  induction acc as [|[k0 s] rest IH]; simpl.
  - intuition.
  - destruct (kcmp k k0) eqn:E; simpl.
    + apply kcmp_eq in E. subst. intuition.
    + intuition.
    + rewrite IH. intuition.
Qed.

Lemma group_add_sorted (k : K) (v : V) (acc : list (K * V)) :
  StronglySorted klt (keys acc) ->
  StronglySorted klt (keys (group_add add k v acc)).
Proof.
  induction acc as [|[k0 s] rest IH]; simpl; intros S.
  - repeat constructor.
  - apply StronglySorted_inv in S as [S F].
    destruct (kcmp k k0) eqn:E; simpl.
    + now constructor.
    + constructor; [now constructor|].
      constructor; [exact E|].
      eapply Forall_impl; [|exact F].
      intros a Ha. exact (kcmp_trans _ _ _ E Ha).
    + constructor; [now apply IH|].
      apply Forall_forall. intros a Ha.
      apply (group_add_keys k v rest a) in Ha as [->|Ha].
      * now apply kcmp_gt_lt.
      * rewrite Forall_forall in F. now apply F.
Qed.


(** An entry of the updated groups is an old entry of another key, or the
    entry of [k]: its old sum plus [v], or [v] alone for a new group. *)
Lemma group_add_entry (k : K) (v : V) (acc : list (K * V)) (k' : K) (s : V) :
  StronglySorted klt (keys acc) ->
  In (k', s) (group_add add k v acc) ->
  (k' <> k /\ In (k', s) acc)
  \/ (k' = k /\ ((~ In k (keys acc) /\ s = v)
                 \/ exists s0, In (k, s0) acc /\ s = add s0 v)).
Proof.
  induction acc as [|[k0 s0] rest IH]; simpl; intros S H.
  - destruct H as [[= <- <-]|[]]. right. split; [reflexivity|]. left. tauto.
  - apply StronglySorted_inv in S as [S F]. rewrite Forall_forall in F.
    assert (Fk : forall x, In (k, x) rest -> kcmp k0 k = Lt).
    { intros x I. apply F. change k with (fst (k, x)). now apply in_map. }
    destruct (kcmp k k0) eqn:E; simpl in H.
    + apply kcmp_eq in E. subst k0.
      destruct H as [[= <- <-]|H].
      * right. split; [reflexivity|]. right. exists s0. tauto.
      * left. split; [|tauto].
        intros ->. apply (klt_irrefl k). now apply (Fk s).
    + destruct H as [[= <- <-]|H].
      * right. split; [reflexivity|]. left. split; [|reflexivity].
        intros [->|H]; [now apply (klt_irrefl k)|].
        apply (klt_irrefl k). exact (kcmp_trans _ _ _ E (F _ H)).
      * left. split; [|tauto].
        intros ->. destruct H as [[= -> _]|H]; [now apply (klt_irrefl k)|].
        apply (klt_irrefl k). apply (kcmp_trans _ _ _ E). now apply (Fk s).
    + destruct H as [[= <- <-]|H].
      * left. split; [|tauto].
        intros ->. rewrite kcmp_refl in E. discriminate.
      * destruct (IH S H) as [[N I]|[-> [[N ->]|(s1 & I & ->)]]].
        -- left. tauto.
        -- right. split; [reflexivity|]. left. split; [|reflexivity].
           intros [->|I]; [|tauto]. rewrite kcmp_refl in E. discriminate.
        -- right. split; [reflexivity|]. right. exists s1. tauto.
Qed.

Variable key : R -> option K.
Variable val : R -> V.

Lemma groupby_sum_snoc (view : list R) (r : R) :
  groupby_sum add key val (view ++ [r])
  = group_step add key val (groupby_sum add key val view) r.
Proof. unfold groupby_sum. now rewrite fold_left_app. Qed.

(** The groups come by strictly ascending key. *)
Lemma groupby_sum_sorted (view : list R) :
  StronglySorted klt (keys (groupby_sum add key val view)).
Proof.
  induction view as [|r view IH] using rev_ind.
  - constructor.
  - rewrite groupby_sum_snoc. unfold group_step.
    destruct (key r); [now apply group_add_sorted|exact IH].
Qed.

(** There is a group for a key exactly when a row has it. *)
Lemma groupby_sum_keys (view : list R) (k : K) :
  In k (keys (groupby_sum add key val view))
  <-> exists r, In r view /\ key r = Some k.
Proof.
  induction view as [|r view IH] using rev_ind.
  - simpl. split; [tauto|]. intros (r & [] & _).
  - rewrite groupby_sum_snoc. unfold group_step.
    assert (X : (exists r0, In r0 (view ++ [r]) /\ key r0 = Some k)
                <-> key r = Some k \/ exists r0, In r0 view /\ key r0 = Some k).
    { split.
      - intros (r0 & I & E). apply in_app_or in I as [I|[->|[]]]; eauto.
      - intros [E|(r0 & I & E)]; [exists r|exists r0];
          (split; [apply in_or_app; simpl; tauto|assumption]). }
    rewrite X. destruct (key r) as [k0|].
    + rewrite group_add_keys, IH. intuition congruence.
    + rewrite IH. intuition congruence.
Qed.

(** The value of a group is the sum over its rows. *)
Lemma groupby_sum_value (view : list R) (k : K) (s : V) :
  In (k, s) (groupby_sum add key val view) ->
  m s == sum (map (fun r => m (val r)) (filter (in_group key k) view)).
Proof.
  revert k s. induction view as [|r view IH] using rev_ind; intros k s H.
  - destruct H.
  - rewrite groupby_sum_snoc in H. unfold group_step in H.
    rewrite filter_app, map_app, sum_app. simpl.
    destruct (key r) as [k0|] eqn:Ek.
    + apply group_add_entry in H; [|apply groupby_sum_sorted].
      destruct H as [[N I]|[-> [[N ->]|(s0 & I & ->)]]].
      * assert (G : in_group key k r = false).
        { destruct (in_group key k r) eqn:G; [|reflexivity].
          apply in_group_spec in G. congruence. }
        rewrite G, (IH _ _ I). simpl. ring.
      * assert (G : in_group key k0 r = true) by now apply in_group_spec.
        rewrite G. simpl.
        assert (E : filter (in_group key k0) view = []).
        { apply filter_none. intros r0 I0.
          destruct (in_group key k0 r0) eqn:G0; [|reflexivity].
          exfalso. apply N. apply groupby_sum_keys.
          exists r0. split; [assumption|now apply in_group_spec]. }
        rewrite E. simpl. ring.
      * assert (G : in_group key k0 r = true) by now apply in_group_spec.
        rewrite G, m_add, (IH _ _ I). simpl. ring.
    + assert (G : in_group key k r = false).
      { unfold in_group. now rewrite Ek. }
      rewrite G, (IH _ _ H). simpl. ring.
Qed.

End GroupByFacts.

(** ** Sorted lists *)

Lemma StronglySorted_weaken {A : Type} (R1 R2 : A -> A -> Prop) (l : list A) :
  (forall a b, R1 a b -> R2 a b) -> StronglySorted R1 l -> StronglySorted R2 l.
Proof.
  intros W. induction 1 as [|a l _ IH F]; constructor; [assumption|].
  eapply Forall_impl; [|exact F]. intros b. apply W.
Qed.

Lemma StronglySorted_NoDup {A : Type} (R : A -> A -> Prop) (l : list A) :
  (forall a, ~ R a a) -> StronglySorted R l -> NoDup l.
Proof.
  intros Irr. induction 1 as [|a l _ IH F]; constructor; [|assumption].
  intros I. rewrite Forall_forall in F. exact (Irr a (F a I)).
Qed.

Lemma StronglySorted_app {A : Type} (R : A -> A -> Prop) (l1 l2 : list A) :
  StronglySorted R l1 -> StronglySorted R l2 ->
  (forall x y, In x l1 -> In y l2 -> R x y) ->
  StronglySorted R (l1 ++ l2).
Proof.
  intros S1 S2. induction S1 as [|a l1 _ IH F]; simpl; intros X; [assumption|].
  constructor.
  - apply IH. intros x y Hx. apply X. now right.
  - apply Forall_app. split; [assumption|].
    apply Forall_forall. intros y Hy. apply X; [now left|assumption].
Qed.

Lemma StronglySorted_rev {A : Type} (R : A -> A -> Prop) (l : list A) :
  StronglySorted R l -> StronglySorted (fun a b => R b a) (rev l).
Proof.
  induction 1 as [|a l _ IH F]; simpl; [constructor|].
  apply StronglySorted_app; [assumption|repeat constructor|].
  intros x y Hx [<-|[]]. rewrite Forall_forall in F. apply F.
  now apply in_rev.
Qed.

Lemma StronglySorted_firstn {A : Type} (R : A -> A -> Prop) (n : nat) (l : list A) :
  StronglySorted R l -> StronglySorted R (firstn n l).
Proof.
  intros S. revert n. induction S as [|a l _ IH F]; intros [|n]; simpl;
    try constructor.
  - apply IH.
  - rewrite Forall_forall in *. intros x Hx. apply F.
    rewrite <- (firstn_skipn n l). apply in_or_app. now left.
Qed.

Lemma In_firstn {A : Type} (n : nat) (l : list A) (x : A) :
  In x (firstn n l) -> In x l.
Proof.
  intros H. rewrite <- (firstn_skipn n l). apply in_or_app. now left.
Qed.

(** ** The rows of a group *)


Lemma filter_idem {A : Type} (p : A -> bool) (l : list A) :
  filter p (filter p l) = filter p l.
Proof.
  induction l as [|a l IH]; simpl; [reflexivity|].
  destruct (p a) eqn:E; simpl; [rewrite E|]; now rewrite IH.
Qed.



Section GroupRows.
Context {R K V : Type} {C : KeyCmp K} {O : KeyOrder K}.
Variable add : V -> V -> V.
Variable key : R -> option K.
Variable val : R -> V.

(** The value of a group is made of the values of its rows alone, added in
    the order of the rows; no property of the addition is used. *)
Lemma groupby_sum_fold (view : list R) (k : K) (s : V) :
  In (k, s) (groupby_sum add key val view) ->
  exists v0 rest,
    map val (filter (in_group key k) view) = v0 :: rest
    /\ s = fold_left add rest v0.
Proof.
  revert k s. induction view as [|r view IH] using rev_ind; intros k s H.
  - destruct H.
  - rewrite groupby_sum_snoc in H. unfold group_step in H.
    rewrite filter_app, map_app. simpl.
    destruct (key r) as [k0|] eqn:Ek.
    + apply group_add_entry in H; [|apply groupby_sum_sorted].
      destruct H as [[N I]|[-> [[N ->]|(s0 & I & ->)]]].
      * assert (G : in_group key k r = false).
        { destruct (in_group key k r) eqn:G; [|reflexivity].
          apply in_group_spec in G. congruence. }
        rewrite G. simpl. rewrite app_nil_r. now apply IH.
      * assert (G : in_group key k0 r = true) by now apply in_group_spec.
        rewrite G.
        assert (E : filter (in_group key k0) view = []).
        { apply filter_none. intros r0 I0.
          destruct (in_group key k0 r0) eqn:G0; [|reflexivity].
          exfalso. apply N. apply (groupby_sum_keys add key val).
          exists r0. split; [assumption|now apply in_group_spec]. }
        rewrite E. simpl. exists (val r), []. split; reflexivity.
      * assert (G : in_group key k0 r = true) by now apply in_group_spec.
        rewrite G. destruct (IH _ _ I) as (v0 & rest & E1 & E2).
        rewrite E1. simpl. exists v0, (rest ++ [val r]).
        split; [reflexivity|]. rewrite fold_left_app. simpl. now rewrite E2.
    + assert (G : in_group key k r = false).
      { unfold in_group. now rewrite Ek. }
      rewrite G. simpl. rewrite app_nil_r. now apply IH.
Qed.

(** Grouping the rows of one group again gives that group alone, with the
    same value. *)
Lemma groupby_sum_of_group (view : list R) (k : K) (s : V) :
  In (k, s) (groupby_sum add key val view) ->
  groupby_sum add key val (filter (in_group key k) view) = [(k, s)].
Proof.
  intros H. destruct (groupby_sum_fold view k s H) as (v0 & rest & E1 & E2).
  set (V' := filter (in_group key k) view) in *.
  assert (A : forall k', In k' (map fst (groupby_sum add key val V')) ->
                         k' = k).
  { intros k' Hk. apply (groupby_sum_keys add key val) in Hk as (r & I & E).
    apply filter_In in I as [_ I]. apply in_group_spec in I. congruence. }
  assert (B : In k (map fst (groupby_sum add key val V'))).
  { apply (groupby_sum_keys add key val).
    destruct V' as [|r0 V0] eqn:EV; [discriminate|].
    exists r0. split; [now left|].
    assert (I : In r0 (filter (in_group key k) view))
      by (fold V'; rewrite EV; now left).
    apply filter_In in I as [_ I]. now apply in_group_spec in I. }
  pose proof (groupby_sum_sorted add key val V') as S.
  destruct (groupby_sum add key val V') as [|[k1 s1] tl] eqn:EG;
    [destruct B|].
  simpl in S, A. apply StronglySorted_inv in S as [_ F].
  assert (E : k1 = k) by (apply A; now left). subst k1.
  destruct tl as [|[k2 s2] tl].
  - f_equal. f_equal.
    assert (I : In (k, s1) (groupby_sum add key val V'))
      by (rewrite EG; now left).
    destruct (groupby_sum_fold V' k s1 I) as (w0 & rest' & F1 & F2).
    unfold V' in F1. rewrite filter_idem in F1. fold V' in F1.
    rewrite E1 in F1. injection F1 as <- <-. now rewrite F2, E2.
  - exfalso. simpl in F, A. apply Forall_inv in F.
    assert (E : k2 = k) by (apply A; right; now left). subst k2.
    exact (klt_irrefl k F).
Qed.

End GroupRows.

Section Groups.
Context {R K X : Type} {C : KeyCmp K} {O : KeyOrder K}.
Variable key : R -> option K.
Variable val : R -> X.





End Groups.

(** ** Category and region rollups *)



(** ** Monthly revenue *)

(** *** Labels of the months *)

Lemma compare_append (a b s t : string) :
  String.length a = String.length b ->
  String.compare (String.append a s) (String.append b t)
  = match String.compare a b with
    | Eq => String.compare s t
    | c => c
    end.
Proof.
  revert b. induction a as [|x a IH]; intros [|y b]; simpl; try discriminate.
  - reflexivity.
  - intros [= L]. destruct (Ascii.compare x y); [now apply IH| |]; reflexivity.
Qed.

Lemma string_lt_trans (a b c : string) :
  String.compare a b = Lt -> String.compare b c = Lt -> String.compare a c = Lt.
Proof. exact (kcmp_trans (K := string) a b c). Qed.

Lemma year_labels_check :
  forallb
    (fun n =>
       let y := Z.of_nat n in
       Nat.eqb (String.length (zfill 4 (digits y))) 4
       && Nat.eqb (String.length (zfill 4 (digits (y + 1)))) 4
       && String.ltb (zfill 4 (digits y)) (zfill 4 (digits (y + 1))))
    (seq 1000 8999)
  = true.
Proof. vm_compute. reflexivity. Qed.

Lemma month_labels_check :
  forallb
    (fun n =>
       let m := Z.of_nat n in
       Nat.eqb (String.length (zfill 2 (digits m))) 2
       && Nat.eqb (String.length (zfill 2 (digits (m + 1)))) 2
       && String.ltb (zfill 2 (digits m)) (zfill 2 (digits (m + 1))))
    (seq 1 11)
  = true.
Proof. vm_compute. reflexivity. Qed.

(** Zero-padded numbers of one width compare as texts the way they compare
    as numbers. *)
Lemma padded_labels (w : nat) (lo n : nat) :
  forallb
    (fun k =>
       let y := Z.of_nat k in
       Nat.eqb (String.length (zfill w (digits y))) w
       && Nat.eqb (String.length (zfill w (digits (y + 1)))) w
       && String.ltb (zfill w (digits y)) (zfill w (digits (y + 1))))
    (seq lo n)
  = true ->
  forall y y' : Z,
    (Z.of_nat lo <= y)%Z -> (y < y')%Z -> (y' <= Z.of_nat (lo + n))%Z ->
    String.length (zfill w (digits y)) = w
    /\ String.length (zfill w (digits y')) = w
    /\ String.compare (zfill w (digits y)) (zfill w (digits y')) = Lt.
Proof.
  intros H.
  assert (Step : forall y, (Z.of_nat lo <= y < Z.of_nat (lo + n))%Z ->
            String.length (zfill w (digits y)) = w
            /\ String.length (zfill w (digits (y + 1))) = w
            /\ String.compare (zfill w (digits y)) (zfill w (digits (y + 1)))
               = Lt).
  { intros y Hy. rewrite forallb_forall in H.
    specialize (H (Z.to_nat y)). rewrite in_seq in H.
    assert (Hk : (lo <= Z.to_nat y < lo + n)%nat) by lia.
    specialize (H Hk). cbv zeta in H. rewrite Z2Nat.id in H by lia.
    apply andb_true_iff in H as [H H3]. apply andb_true_iff in H as [H1 H2].
    apply Nat.eqb_eq in H1, H2. split; [exact H1|]. split; [exact H2|].
    unfold String.ltb in H3.
    destruct (String.compare (zfill w (digits y)) (zfill w (digits (y + 1))));
      [discriminate|reflexivity|discriminate]. }
  intros y y' Hlo Hlt Hhi.
  assert (G : forall d : nat, forall z, (Z.of_nat lo <= z)%Z ->
                (z + 1 + Z.of_nat d <= Z.of_nat (lo + n))%Z ->
                String.length (zfill w (digits z)) = w
                /\ String.length (zfill w (digits (z + 1 + Z.of_nat d))) = w
                /\ String.compare (zfill w (digits z))
                     (zfill w (digits (z + 1 + Z.of_nat d))) = Lt).
  { induction d as [|d IH]; intros z Hz Hd.
    - replace (z + 1 + Z.of_nat 0)%Z with (z + 1)%Z by lia.
      apply Step. lia.
    - destruct (IH z Hz) as (L1 & L2 & L3); [lia|].
      destruct (Step (z + 1 + Z.of_nat d)%Z) as (M1 & M2 & M3); [lia|].
      replace (z + 1 + Z.of_nat (S d))%Z with (z + 1 + Z.of_nat d + 1)%Z
        by lia.
      split; [exact L1|]. split; [exact M2|].
      exact (string_lt_trans _ _ _ L3 M3). }
  replace y' with (y + 1 + Z.of_nat (Z.to_nat (y' - y - 1)))%Z by lia.
  apply G; lia.
Qed.

(** The texts of calendar months are in the order of the months. *)
Lemma period_str_lt (p q : Period) :
  calendar_month p -> calendar_month q -> period_lt p q ->
  String.compare (period_str p) (period_str q) = Lt.
Proof.
  intros [Yp Mp] [Yq Mq] L. unfold period_str.
  destruct L as [L|[E L]].
  - destruct (padded_labels 4 1000 8999 year_labels_check
                (p_year p) (p_year q)) as (L1 & L2 & L3);
      [simpl; lia|exact L|simpl; lia|].
    rewrite compare_append by congruence. now rewrite L3.
  - destruct (padded_labels 2 1 11 month_labels_check
                (p_month p) (p_month q)) as (L1 & L2 & L3);
      [simpl; lia|exact L|simpl; lia|].
    rewrite E, compare_append by reflexivity.
    assert (X : String.compare (zfill 4 (digits (p_year q)))
                  (zfill 4 (digits (p_year q))) = Eq)
      by (apply String_as_OT.cmp_eq; reflexivity).
    rewrite X. simpl. exact L3.
Qed.

Lemma StronglySorted_map_in {A B : Type} (R1 : A -> A -> Prop)
    (R2 : B -> B -> Prop) (f : A -> B) (l : list A) :
  (forall a b, In a l -> In b l -> R1 a b -> R2 (f a) (f b)) ->
  StronglySorted R1 l -> StronglySorted R2 (map f l).
Proof.
  intros W S. induction S as [|a l S IH F]; simpl; [constructor|].
  constructor.
  - apply IH. intros x y Hx Hy. apply W; now right.
  - rewrite Forall_forall in *. intros y Hy.
    apply in_map_iff in Hy as (x & <- & Hx).
    apply W; [now left|now right|now apply F].
Qed.

Lemma in_month_group (p : Period) (r : Row) :
  in_group month_of p r = in_month p r.
Proof.
  unfold in_month.
  destruct (in_group month_of p r) eqn:G.
  - apply in_group_spec in G. unfold month_of in G.
    destruct (Order_Date r) as [t|]; [|discriminate].
    injection G as <-. simpl. now rewrite !Z.eqb_refl.
  - destruct (Order_Date r) as [t|] eqn:E; [|reflexivity].
    destruct (Z.eqb_spec (ts_year t) (p_year p)) as [E1|]; [|reflexivity].
    destruct (Z.eqb_spec (ts_month t) (p_month p)) as [E2|]; [|reflexivity].
    assert (G' : in_group month_of p r = true).
    { apply in_group_spec. unfold month_of. rewrite E. simpl.
      destruct p. unfold to_period_M. simpl in *. now subst. }
    congruence.
Qed.

(** C5. The monthly revenue is one (month, sum of sales) pair per calendar
    month of the order dates. Its labels are the texts of months that come
    in strictly ascending chronological order, by year and then by month; a
    month has an entry exactly when the order date of some record of the
    view has that year and that month, so months without records get none;
    the value of an entry is the sum, in the order of the rows, of the sales
    of the records whose date falls in that month. For dates with years of
    four digits and months 1 to 12 the labels themselves are in strictly
    ascending order, hence all different. *)
Theorem monthly_spec (view : list Row) :
  exists ps : list (Period * Q),
    monthly view = map (fun e => (period_str (fst e), snd e)) ps
    /\ StronglySorted period_lt (map fst ps)
    /\ (forall p, In p (map fst ps)
                  <-> exists r t, In r view /\ Order_Date r = Some t
                                  /\ ts_year t = p_year p
                                  /\ ts_month t = p_month p)
    /\ (forall p s, In (p, s) ps ->
          s == sum (map Sales (filter (in_month p) view))
          /\ exists v0 rest,
               map Sales (filter (in_month p) view) = v0 :: rest
               /\ s = fold_left Qplus rest v0)
    /\ ((forall r t, In r view -> Order_Date r = Some t ->
                     (1000 <= ts_year t <= 9999)%Z
                     /\ (1 <= ts_month t <= 12)%Z) ->
        StronglySorted (fun a b => String.compare a b = Lt)
          (map fst (monthly view))).
Proof.
  exists (monthly_periods view).
  assert (M : forall p, In p (map fst (monthly_periods view))
                <-> exists r t, In r view /\ Order_Date r = Some t
                                /\ ts_year t = p_year p
                                /\ ts_month t = p_month p).
  { intros p. unfold monthly_periods. rewrite groupby_sum_keys. split.
    - intros (r & I & E). unfold month_of in E.
      destruct (Order_Date r) as [t|] eqn:D; [|discriminate].
      injection E as <-. exists r, t. simpl. auto.
    - intros (r & t & I & D & E1 & E2). exists r. split; [exact I|].
      unfold month_of. rewrite D. simpl. destruct p. unfold to_period_M.
      simpl in *. now subst. }
  assert (S : StronglySorted period_lt (map fst (monthly_periods view))).
  { eapply StronglySorted_weaken;
      [|exact (groupby_sum_sorted Qplus month_of Sales view)].
    intros a b. apply period_cmp_lt. }
  split; [reflexivity|]. split; [exact S|]. split; [exact M|]. split.
  - intros p s I.
    rewrite <- (filter_ext _ _ (in_month_group p)). split.
    + exact (groupby_sum_value Qplus (fun q => q)
               (fun a b => Qeq_refl (a + b)) month_of Sales view p s I).
    + exact (groupby_sum_fold Qplus month_of Sales view p s I).
  - intros V. unfold monthly. rewrite map_map. simpl.
    rewrite <- (map_map fst period_str).
    eapply StronglySorted_map_in; [|exact S].
    intros a b Ha Hb L.
    apply M in Ha as (ra & ta & Ia & Da & Ya & Ma).
    apply M in Hb as (rb & tb & Ib & Db & Yb & Mb).
    destruct (V ra ta Ia Da) as [Va1 Va2].
    destruct (V rb tb Ib Db) as [Vb1 Vb2].
    apply period_str_lt; [split; lia|split; lia|exact L].
Qed.

(** ** Top products *)

Lemma insert_asc_perm {K : Type} (x : K * Q) (l : list (K * Q)) :
  Permutation (insert_asc x l) (x :: l).
Proof.
  induction l as [|y t IH]; simpl; [reflexivity|].
  destruct (Qle_bool (snd x) (snd y)); [reflexivity|].
  rewrite IH. constructor.
Qed.

Lemma insert_asc_sorted {K : Type} (x : K * Q) (l : list (K * Q)) :
  StronglySorted (fun a b => snd a <= snd b) l ->
  StronglySorted (fun a b => snd a <= snd b) (insert_asc x l).
Proof.
  induction 1 as [|y t S IH F]; simpl; [repeat constructor|].
  destruct (Qle_bool (snd x) (snd y)) eqn:E.
  - apply Qle_bool_iff in E. constructor; [now constructor|].
    constructor; [assumption|].
    eapply Forall_impl; [|exact F]. intros a Ha. simpl in Ha.
    now apply (Qle_trans _ (snd y)).
  - constructor; [assumption|].
    apply Forall_forall. intros a Ha.
    apply (Permutation_in _ (insert_asc_perm x t)) in Ha as [<-|Ha].
    + apply Qlt_le_weak, Qnot_le_lt. intros L.
      apply Qle_bool_iff in L. congruence.
    + rewrite Forall_forall in F. now apply F.
Qed.

Lemma argsort_asc_perm {K : Type} (l : list (K * Q)) :
  Permutation (argsort_asc l) l.
Proof.
  induction l as [|x t IH]; simpl; [constructor|].
  rewrite insert_asc_perm. now constructor.
Qed.

Lemma argsort_asc_sorted {K : Type} (l : list (K * Q)) :
  StronglySorted (fun a b => snd a <= snd b) (argsort_asc l).
Proof.
  induction l as [|x t IH]; simpl; [constructor|].
  now apply insert_asc_sorted.
Qed.

Lemma sort_values_desc_perm {K : Type} (l : list (K * Q)) :
  Permutation (sort_values_desc l) l.
Proof.
  unfold sort_values_desc.
  rewrite <- Permutation_rev, argsort_asc_perm. apply Permutation_sym, Permutation_rev.
Qed.

Lemma sort_values_desc_sorted {K : Type} (l : list (K * Q)) :
  StronglySorted value_ge (sort_values_desc l).
Proof.
  unfold sort_values_desc.
  apply (StronglySorted_rev (fun a b : K * Q => snd a <= snd b)).
  apply argsort_asc_sorted.
Qed.

Lemma StronglySorted_app_inv {A : Type} (R : A -> A -> Prop) (l1 l2 : list A) :
  StronglySorted R (l1 ++ l2) ->
  forall x y, In x l1 -> In y l2 -> R x y.
Proof.
  induction l1 as [|a l1 IH]; simpl; intros S x y Hx Hy; [destruct Hx|].
  apply StronglySorted_inv in S as [S F]. destruct Hx as [<-|Hx].
  - rewrite Forall_forall in F. apply F. apply in_or_app. now right.
  - now apply IH.
Qed.

Lemma product_sales_names (view : list Row) (name : string) :
  In name (map fst (product_sales view)) <-> In name (map Product_Name view).
Proof.
  unfold product_sales. rewrite groupby_sum_keys, in_map_iff. split.
  - intros (r & I & [= E]). eauto.
  - intros (r & E & I). exists r. split; [assumption|now rewrite E].
Qed.

Lemma product_sales_NoDup (view : list Row) :
  NoDup (map fst (product_sales view)).
Proof.
  eapply StronglySorted_NoDup;
    [|exact (groupby_sum_sorted Qplus (fun r => Some (Product_Name r)) Sales view)].
  intros a. apply klt_irrefl.
Qed.

Lemma product_sales_length (view : list Row) :
  List.length (product_sales view) = nunique (map Product_Name view).
Proof.
  unfold nunique. rewrite <- (length_map fst (product_sales view)).
  apply Permutation_length, NoDup_Permutation.
  - apply product_sales_NoDup.
  - apply NoDup_nodup.
  - intros name. rewrite nodup_In. apply product_sales_names.
Qed.

Lemma product_sales_value (view : list Row) (name : string) (s : Q) :
  In (name, s) (product_sales view) ->
  s == sum (map Sales (filter (fun r => String.eqb (Product_Name r) name) view)).
Proof.
  intros I.
  rewrite (filter_ext (fun r => String.eqb (Product_Name r) name)
             (in_group (fun r => Some (Product_Name r)) name)).
  - exact (groupby_sum_value Qplus (fun q => q) (fun a b => Qeq_refl (a + b))
             (fun r => Some (Product_Name r)) Sales view name s I).
  - intros r.
    destruct (in_group (fun r0 => Some (Product_Name r0)) name r) eqn:G.
    + apply in_group_spec in G as [= ->]. apply String.eqb_refl.
    + apply not_true_is_false. intros E. apply String.eqb_eq in E.
      assert (G' : in_group (fun r0 => Some (Product_Name r0)) name r = true)
        by (apply in_group_spec; now rewrite E).
      congruence.
Qed.

Section TopProductsFacts.
Variable sorter : list (string * Q) -> list (string * Q).
Hypothesis sorter_perm : forall l, Permutation (sorter l) l.
Hypothesis sorter_sorted : forall l, StronglySorted value_ge (sorter l).

(** What the ranking is for any sort that returns its input rearranged
    by non-increasing value. *)
Lemma top_products_with_spec (n : nat) (view : list Row) :
  List.length (top_products_with sorter n view)
  = Nat.min n (nunique (map Product_Name view))
  /\ StronglySorted value_ge (top_products_with sorter n view)
  /\ NoDup (map fst (top_products_with sorter n view))
  /\ (forall name s, In (name, s) (top_products_with sorter n view) ->
        In name (map Product_Name view)
        /\ s == sum (map Sales
                       (filter (fun r => String.eqb (Product_Name r) name) view)))
  /\ (forall e e', In e' (top_products_with sorter n view) ->
        In e (product_sales view) ->
        ~ In e (top_products_with sorter n view) ->
        snd e <= snd e').
Proof.
  unfold top_products_with, head.
  set (ps := product_sales view). set (l := sorter ps).
  assert (P : Permutation l ps) by apply sorter_perm.
  assert (S : StronglySorted value_ge l) by apply sorter_sorted.
  split; [|split; [|split; [|split]]].
  - rewrite length_firstn, (Permutation_length P). unfold ps.
    now rewrite product_sales_length.
  - now apply StronglySorted_firstn.
  - assert (N : NoDup (map fst l)).
    { apply (Permutation_NoDup (Permutation_sym (Permutation_map fst P))).
      apply product_sales_NoDup. }
    rewrite <- (firstn_skipn n l), map_app in N.
    now apply NoDup_app_remove_r in N.
  - intros name s I. apply In_firstn in I.
    apply (Permutation_in _ P) in I. split.
    + apply product_sales_names. change name with (fst (name, s)).
      now apply in_map.
    + now apply product_sales_value.
  - intros e e' I' I N.
    apply (Permutation_in _ (Permutation_sym P)) in I.
    rewrite <- (firstn_skipn n l) in I, S.
    apply in_app_or in I as [I|I]; [contradiction|].
    exact (StronglySorted_app_inv _ _ _ S e' e I' I).
Qed.
End TopProductsFacts.

(** C3, as amended. For every view and every [n], the ranking is a list of
    (product name, summed sales) pairs of length min(n, number of distinct
    product names in the view), by non-increasing sum, with no product
    twice, each sum being the sales of that product in the view, and no
    product left out has a larger sum than one that is listed. The sort
    receives the sums by ascending product name, not in the order in which
    the names are first met in the view. *)
Theorem top_products_n_spec (n : nat) (view : list Row) :
  List.length (top_products_n n view)
  = Nat.min n (nunique (map Product_Name view))
  /\ StronglySorted value_ge (top_products_n n view)
  /\ NoDup (map fst (top_products_n n view))
  /\ (forall name s, In (name, s) (top_products_n n view) ->
        In name (map Product_Name view)
        /\ s == sum (map Sales
                       (filter (fun r => String.eqb (Product_Name r) name) view)))
  /\ (forall e e', In e' (top_products_n n view) ->
        In e (product_sales view) ->
        ~ In e (top_products_n n view) ->
        snd e <= snd e')
  /\ StronglySorted (fun a b => String.compare a b = Lt)
       (map fst (product_sales view)).
Proof.
  pose proof (top_products_with_spec sort_values_desc sort_values_desc_perm
                sort_values_desc_sorted n view) as (H1 & H2 & H3 & H4 & H5).
  unfold top_products_n.
  split; [exact H1|]. split; [exact H2|]. split; [exact H3|].
  split; [exact H4|]. split; [exact H5|].
  exact (groupby_sum_sorted Qplus (fun r => Some (Product_Name r)) Sales view).
Qed.

(** C3, as stated, fails: "Binder" is met first in the view and "Anchor"
    second, both with sales 10, and the ranking lists "Anchor" first. *)
Lemma top_products_ties_not_first_seen :
  top_products tie_view = [("Anchor"%string, 10); ("Binder"%string, 10)]
  /\ map Product_Name tie_view = ["Binder"%string; "Anchor"%string]
  /\ ~ ties_by_first_seen tie_view (top_products tie_view).
Proof.
  split; [reflexivity|]. split; [reflexivity|].
  intros H.
  pose proof (H 0%nat 1%nat ("Anchor"%string, 10) ("Binder"%string, 10)
                (Nat.lt_0_succ 0) eq_refl eq_refl (Qeq_refl 10)) as X.
  simpl in X. lia.
Qed.

(** The grouped sums do not record the order of the rows, so no sort, stable
    or not, can follow the order of first encounter on both row orders. *)
Lemma ties_first_seen_impossible
    (sorter : list (string * Q) -> list (string * Q)) :
  (forall l, Permutation (sorter l) l) ->
  ~ (ties_by_first_seen tie_view (top_products_with sorter 5 tie_view)
     /\ ties_by_first_seen tie_view_swapped
          (top_products_with sorter 5 tie_view_swapped)).
Proof.
  intros P [H1 H2].
  assert (E1 : product_sales tie_view
               = [("Anchor"%string, 10); ("Binder"%string, 10)]) by reflexivity.
  assert (E2 : product_sales tie_view_swapped
               = [("Anchor"%string, 10); ("Binder"%string, 10)]) by reflexivity.
  unfold top_products_with in H1, H2. rewrite E1 in H1. rewrite E2 in H2.
  pose proof (P [("Anchor"%string, 10); ("Binder"%string, 10)]) as Q.
  apply Permutation_sym, Permutation_length_2_inv in Q as [Q|Q];
    rewrite Q in H1, H2.
  - pose proof (H1 0%nat 1%nat ("Anchor"%string, 10) ("Binder"%string, 10)
                  (Nat.lt_0_succ 0) eq_refl eq_refl (Qeq_refl 10)) as X.
    simpl in X. lia.
  - pose proof (H2 0%nat 1%nat ("Binder"%string, 10) ("Anchor"%string, 10)
                  (Nat.lt_0_succ 0) eq_refl eq_refl (Qeq_refl 10)) as X.
    simpl in X. lia.
Qed.

(** ** Empty views *)

Lemma filtered_df_no_region (D : list Row) (y : Z) (cats : list string) :
  filtered_df D y [] cats = [].
Proof.
  rewrite filtered_df_filter. apply filter_none. intros r _.
  unfold selectedb. simpl. now rewrite andb_false_r.
Qed.

Lemma filtered_df_no_category (D : list Row) (y : Z) (regs : list string) :
  filtered_df D y regs [] = [].
Proof.
  rewrite filtered_df_filter. apply filter_none. intros r _.
  unfold selectedb. simpl. now rewrite andb_false_r.
Qed.

(** C9, as amended. No aggregation raises, on any view. On an empty view,
    in particular the view of an empty region or category selection, the
    total revenue, the total profit and the margin percent are 0 and the
    monthly, category, region and top-product rollups are empty; the growth
    percent is 0 when the prior-year revenue is 0 and -100 otherwise. *)
Theorem aggregates_total :
  (forall view previous, exists m g : Q,
      margin_percent view = Ok m /\ revenue_growth view previous = Ok g)
  /\ total_revenue [] = 0
  /\ total_profit [] = 0
  /\ margin_percent [] = Ok 0
  /\ (forall previous,
        (prev_revenue previous == 0 /\ revenue_growth [] previous = Ok 0)
        \/ (~ prev_revenue previous == 0
            /\ exists g, revenue_growth [] previous = Ok g /\ g == - (100)))
  /\ monthly [] = []
  /\ category [] = []
  /\ region [] = []
  /\ (forall n, top_products_n n [] = [])
  /\ (forall D y cats, filtered_df D y [] cats = [])
  /\ (forall D y regs, filtered_df D y regs [] = []).
Proof.
  split.
  { intros view previous.
    destruct (margin_percent_cases view) as [[_ ->]|[_ ->]];
      destruct (revenue_growth_cases view previous) as [[_ ->]|[_ ->]]; eauto. }
  do 3 (split; [reflexivity|]).
  split.
  { intros previous.
    destruct (revenue_growth_cases [] previous) as [[Z0 E]|[N E]].
    - left. tauto.
    - right. split; [assumption|]. eexists. split; [exact E|].
      unfold total_revenue. simpl. field. exact N. }
  do 3 (split; [reflexivity|]).
  split; [intros [|n]; reflexivity|].
  split; [exact filtered_df_no_region|exact filtered_df_no_category].
Qed.

(** C9, as stated, fails for the growth percent: with no region selected
    the view of 2023 is empty, the prior year has revenue 150, and the
    growth is -100, not 0. *)
Lemma empty_view_growth_not_zero :
  filtered_df sample_df 2023 [] ["Tech"%string; "Office"%string] = []
  /\ exists g,
       revenue_growth
         (filtered_df sample_df 2023 [] ["Tech"%string; "Office"%string])
         (previous_df sample_df 2023) = Ok g
       /\ g == - (100) /\ ~ g == 0.
Proof.
  split; [reflexivity|].
  eexists. split; [vm_compute; reflexivity|].
  split; [reflexivity|discriminate].
Qed.

(** ** Duplicate removal *)

Lemma existsb_rev {A : Type} (f : A -> bool) (l : list A) :
  existsb f (rev l) = existsb f l.
Proof.
  induction l as [|x t IH]; simpl; [reflexivity|].
  rewrite existsb_app, IH. simpl. rewrite orb_false_r. apply orb_comm.
Qed.

Section DropDuplicatesFacts.
Context {A : Type} (eqb : A -> A -> bool).

Lemma drop_duplicates_from_clean (seen l : list A) :
  no_duplicates eqb (drop_duplicates_from eqb seen l)
  /\ forall x, In x (drop_duplicates_from eqb seen l) ->
               existsb (eqb x) seen = false.
Proof.
  revert seen. induction l as [|r t IH]; intros seen; simpl.
  - split; [exact I|intros x []].
  - destruct (existsb (eqb r) seen) eqn:E; [apply IH|].
    destruct (IH (r :: seen)) as [N F]. simpl. split; [split|].
    + intros y Hy. apply F in Hy. simpl in Hy.
      now apply orb_false_iff in Hy.
    + exact N.
    + intros x [<-|Hx]; [exact E|].
      apply F in Hx. simpl in Hx. now apply orb_false_iff in Hx.
Qed.

Lemma drop_duplicates_from_fixed (seen l : list A) :
  no_duplicates eqb l ->
  (forall x, In x l -> existsb (eqb x) seen = false) ->
  drop_duplicates_from eqb seen l = l.
Proof.
  revert seen. induction l as [|r t IH]; intros seen N F; simpl;
    [reflexivity|].
  destruct N as [N1 N2]. rewrite (F r (or_introl eq_refl)). f_equal.
  apply IH; [exact N2|]. intros x Hx. simpl.
  rewrite (N1 x Hx), (F x (or_intror Hx)). reflexivity.
Qed.

Lemma drop_duplicates_fixed (l : list A) :
  no_duplicates eqb l -> drop_duplicates eqb l = l.
Proof.
  intros N. apply drop_duplicates_from_fixed; [exact N|reflexivity].
Qed.

Lemma drop_duplicates_idem (l : list A) :
  drop_duplicates eqb (drop_duplicates eqb l) = drop_duplicates eqb l.
Proof.
  apply drop_duplicates_fixed. apply drop_duplicates_from_clean.
Qed.

Lemma drop_duplicates_subseq (seen l : list A) :
  subseq (drop_duplicates_from eqb seen l) l.
Proof.
  revert seen. induction l as [|r t IH]; intros seen; simpl.
  - constructor.
  - destruct (existsb (eqb r) seen); constructor; apply IH.
Qed.

Lemma drop_duplicates_from_app (seen l1 l2 : list A) :
  drop_duplicates_from eqb seen (l1 ++ l2)
  = drop_duplicates_from eqb seen l1
    ++ drop_duplicates_from eqb
         (rev (drop_duplicates_from eqb seen l1) ++ seen) l2.
Proof.
  revert seen. induction l1 as [|r t IH]; intros seen; simpl; [reflexivity|].
  destruct (existsb (eqb r) seen); [apply IH|].
  simpl. rewrite IH, <- app_assoc. reflexivity.
Qed.

Hypothesis eqb_refl : forall x, eqb x x = true.

(** Every row stays, itself or as the equal row kept before it. *)
Lemma drop_duplicates_from_keeps (seen l : list A) (x : A) :
  In x l ->
  existsb (eqb x) seen = true
  \/ exists y, In y (drop_duplicates_from eqb seen l) /\ eqb x y = true.
Proof.
  revert seen. induction l as [|r t IH]; intros seen; simpl; [intros []|].
  intros [->|Hx].
  - destruct (existsb (eqb x) seen) eqn:E; [now left|].
    right. exists x. split; [now left|apply eqb_refl].
  - destruct (existsb (eqb r) seen) eqn:E; [now apply IH|].
    destruct (IH (r :: seen) Hx) as [H|(y & Hy & Ey)].
    + simpl in H. apply orb_true_iff in H as [H|H]; [|now left].
      right. exists r. split; [now left|exact H].
    + right. exists y. split; [now right|exact Ey].
Qed.

Hypothesis eqb_trans :
  forall x y z, eqb x y = true -> eqb y z = true -> eqb x z = true.

Lemma existsb_drop_duplicates_from (seen l : list A) (x : A) :
  existsb (eqb x) (drop_duplicates_from eqb seen l) || existsb (eqb x) seen
  = existsb (eqb x) l || existsb (eqb x) seen.
Proof.
  revert seen. induction l as [|r t IH]; intros seen; simpl; [reflexivity|].
  destruct (existsb (eqb r) seen) eqn:E.
  - rewrite IH. destruct (eqb x r) eqn:Exr; [|reflexivity].
    apply existsb_exists in E as (e & He & Ee).
    assert (Es : existsb (eqb x) seen = true).
    { apply existsb_exists. exists e.
      split; [exact He|exact (eqb_trans _ _ _ Exr Ee)]. }
    rewrite Es. simpl. apply orb_true_r.
  - simpl. specialize (IH (r :: seen)). simpl in IH.
    destruct (eqb x r); simpl in *; [reflexivity|exact IH].
Qed.

(** A row is dropped exactly when a row before it is equal to it. *)
Lemma drop_duplicates_snoc (l : list A) (r : A) :
  drop_duplicates eqb (l ++ [r])
  = drop_duplicates eqb l ++ (if existsb (eqb r) l then [] else [r]).
Proof.
  unfold drop_duplicates. rewrite drop_duplicates_from_app. f_equal.
  simpl. rewrite app_nil_r, existsb_rev.
  pose proof (existsb_drop_duplicates_from [] l r) as X. simpl in X.
  rewrite !orb_false_r in X. rewrite X. reflexivity.
Qed.
End DropDuplicatesFacts.

Lemma list_eqb_string (l1 l2 : list string) :
  list_eqb String.eqb l1 l2 = true <-> l1 = l2.
Proof.
  revert l2. induction l1 as [|x t IH]; intros [|y u]; simpl;
    try (split; [discriminate|discriminate]).
  - tauto.
  - rewrite andb_true_iff, String.eqb_eq, IH.
    split; [intros [-> ->]; reflexivity|intros [= -> ->]; tauto].
Qed.

Lemma raw_eqb_spec (a b : RawRow) : raw_eqb a b = true <-> same_fields a b.
Proof.
  unfold raw_eqb, same_fields.
  rewrite !andb_true_iff, !String.eqb_eq, !Qeq_bool_iff, list_eqb_string.
  tauto.
Qed.

Lemma raw_eqb_refl (a : RawRow) : raw_eqb a a = true.
Proof.
  apply raw_eqb_spec. unfold same_fields.
  repeat (split; [reflexivity|]). reflexivity.
Qed.

Lemma raw_eqb_trans (a b c : RawRow) :
  raw_eqb a b = true -> raw_eqb b c = true -> raw_eqb a c = true.
Proof.
  rewrite !raw_eqb_spec. unfold same_fields.
  intros (A1 & A2 & A3 & A4 & A5 & A6 & A7) (B1 & B2 & B3 & B4 & B5 & B6 & B7).
  rewrite A1, A2, A3, A4, A5, A6, A7.
  tauto.
Qed.

(** C8. Loading is a function of the content of the source, so the same
    content gives the same Dataset; removing duplicates twice is the same as
    removing them once, the loader gives the same Dataset on a source whose
    duplicates are already removed, and a table without duplicates, raw or
    loaded, is left as it is; nothing is added or reordered, and a row is
    removed exactly when a row before it has all fields equal to its own. *)
Theorem drop_duplicates_idempotent :
  (forall to_datetime csv csv',
      csv = csv' -> load_data to_datetime csv = load_data to_datetime csv')
  /\ (forall csv, drop_duplicates raw_eqb (drop_duplicates raw_eqb csv)
                  = drop_duplicates raw_eqb csv)
  /\ (forall to_datetime csv,
        load_data to_datetime (drop_duplicates raw_eqb csv)
        = load_data to_datetime csv)
  /\ (forall csv, no_duplicates raw_eqb csv -> drop_duplicates raw_eqb csv = csv)
  /\ (forall d : list Row, no_duplicates row_eqb d -> drop_duplicates row_eqb d = d)
  /\ (forall d : list Row, drop_duplicates row_eqb (drop_duplicates row_eqb d)
                           = drop_duplicates row_eqb d)
  /\ (forall csv, subseq (drop_duplicates raw_eqb csv) csv)
  /\ (forall csv r,
        drop_duplicates raw_eqb (csv ++ [r])
        = drop_duplicates raw_eqb csv
          ++ (if existsb (raw_eqb r) csv then [] else [r]))
  /\ (forall a b, raw_eqb a b = true <-> same_fields a b).
Proof.
  split; [intros td csv csv' ->; reflexivity|].
  split; [apply drop_duplicates_idem|].
  split; [intros td csv; unfold load_data; now rewrite drop_duplicates_idem|].
  split; [apply drop_duplicates_fixed|].
  split; [apply drop_duplicates_fixed|].
  split; [apply drop_duplicates_idem|].
  split; [intros csv; apply drop_duplicates_subseq|].
  split; [|exact raw_eqb_spec].
  intros csv r. apply drop_duplicates_snoc. exact raw_eqb_trans.
Qed.

(** Duplicates are removed before the dates are parsed: two rows that differ
    only in the text of a date that does not parse are both kept, and are
    equal rows of the loaded frame. *)
Remark loaded_rows_can_coincide :
  drop_duplicates raw_eqb unparsed_csv = unparsed_csv
  /\ List.length (load_data sample_to_datetime unparsed_csv) = 2%nat
  /\ List.length
       (drop_duplicates row_eqb (load_data sample_to_datetime unparsed_csv))
     = 1%nat.
Proof. repeat split. Qed.

(** ** Dates that do not parse *)

Lemma null_year_never_selected (D : list Row) (row : Row) :
  Year row = None ->
  (forall y regs cats, ~ In row (filtered_df D y regs cats))
  /\ (forall y, ~ In row (previous_df D y)).
Proof.
  intros N. split.
  - intros y regs cats H. rewrite filtered_df_filter in H.
    apply filter_In in H as [_ H]. apply selectedb_spec in H as [H _].
    congruence.
  - intros y H. rewrite previous_df_filter in H.
    apply filter_In in H as [_ H]. apply year_is_spec in H. congruence.
Qed.

(** C7. A row of the source whose order date does not parse is present in
    the loaded Dataset (itself, or the equal row kept for it) with all its
    values, a missing date and a missing year, and it is in no filtered view
    and no comparison view, whatever year is selected. *)
Theorem unparsed_dates_kept_unselected
    (to_datetime : string -> option Timestamp) (csv : list RawRow) (r : RawRow) :
  In r csv ->
  to_datetime (raw_order_date r) = None ->
  exists row,
    In row (load_data to_datetime csv)
    /\ Order_Date row = None /\ Year row = None
    /\ Sales row == raw_sales r /\ Profit row == raw_profit r
    /\ Region row = raw_region r /\ Category row = raw_category r
    /\ Product_Name row = raw_product_name r /\ Others row = raw_others r
    /\ (forall y regs cats,
          ~ In row (filtered_df (load_data to_datetime csv) y regs cats))
    /\ (forall y, ~ In row (previous_df (load_data to_datetime csv) y)).
Proof.
  intros I N.
  destruct (drop_duplicates_from_keeps raw_eqb raw_eqb_refl [] csv r I)
    as [H|(r' & I' & E)]; [discriminate|].
  apply raw_eqb_spec in E as (E1 & E2 & E3 & E4 & E5 & E6 & E7).
  assert (Y : Year (derive to_datetime r') = None).
  { unfold derive. simpl. now rewrite <- E1, N. }
  exists (derive to_datetime r').
  split; [unfold load_data; now apply in_map|].
  split; [unfold derive; simpl; now rewrite <- E1|].
  split; [exact Y|].
  simpl. rewrite E2, E3, E4, E5, E6, E7.
  do 6 (split; [reflexivity|]).
  now apply null_year_never_selected.
Qed.

Lemma unparsed_dates_sample :
  exists row,
    In row (load_data sample_to_datetime sample_csv)
    /\ Order_Date row = None /\ Year row = None
    /\ Sales row == raw_sales unparsed_row
    /\ Profit row == raw_profit unparsed_row
    /\ Region row = raw_region unparsed_row
    /\ Category row = raw_category unparsed_row
    /\ Product_Name row = raw_product_name unparsed_row
    /\ Others row = raw_others unparsed_row
    /\ (forall y regs cats,
          ~ In row (filtered_df (load_data sample_to_datetime sample_csv)
                      y regs cats))
    /\ (forall y,
          ~ In row (previous_df (load_data sample_to_datetime sample_csv) y)).
Proof.
  apply (unparsed_dates_kept_unselected sample_to_datetime sample_csv
           unparsed_row).
  - simpl. do 3 right. left. reflexivity.
  - reflexivity.
Defined.

(** ** The examples of the specification *)

Example sample_load :
  map raw_product_name (drop_duplicates raw_eqb sample_csv)
  = ["Phone"%string; "Paper"%string; "Cable"%string; "Phone"%string]
  /\ map Year sample_df = [Some 2023%Z; Some 2023%Z; None; Some 2022%Z]
  /\ map Product_Name (filtered_df sample_df 2023 ["East"%string]
                         ["Tech"%string; "Office"%string])
     = ["Phone"%string]
  /\ map Product_Name (previous_df sample_df 2023) = ["Phone"%string].
Proof. repeat split. Qed.

Example sample_kpis :
  let view := filtered_df sample_df 2023 ["East"%string; "West"%string]
                ["Tech"%string; "Office"%string] in
  total_revenue view == 300
  /\ total_profit view == - (30)
  /\ exists m, margin_percent view = Ok m /\ m == - (10).
Proof.
  split; [reflexivity|]. split; [reflexivity|].
  eexists. split; [vm_compute; reflexivity|reflexivity].
Qed.

Example sample_growth_without_prior_year :
  let view := filtered_df sample_df 2022 ["West"%string] ["Tech"%string] in
  total_revenue view == 150
  /\ previous_df sample_df 2022 = []
  /\ revenue_growth view (previous_df sample_df 2022) = Ok 0
  /\ growth_report view (previous_df sample_df 2022) = Ok (Declined 0).
Proof. repeat split. Qed.

Example sample_rollups :
  monthly sample_df
  = [("2022-11"%string, 150); ("2023-01"%string, 100); ("2023-03"%string, 200)]
  /\ category sample_df = [("Office"%string, - (50)); ("Tech"%string, 55)]
  /\ region sample_df
     = [("East"%string, (140, 25)); ("West"%string, (350, - (20)))]
  /\ top_products sample_df
     = [("Phone"%string, 250); ("Paper"%string, 200); ("Cable"%string, 40)].
Proof. repeat split. Qed.


(** * Further properties of the dashboard *)

(** ** Sorted unique values *)

#[export] Instance Z_order : KeyOrder Z.
Proof.
  split.
  - intros a b. apply Z.compare_eq_iff.
  - intros a b. apply Z.compare_antisym.
  - intros a b c. unfold kcmp, Z_cmp. rewrite !Z.compare_lt_iff. lia.
Qed.

Lemma subseq_incl {A : Type} (l1 l2 : list A) (x : A) :
  subseq l1 l2 -> In x l1 -> In x l2.
Proof.
  induction 1 as [|y l1 l2 _ IH|y l1 l2 _ IH]; simpl; intuition.
Qed.

Lemma dropna_In {A : Type} (col : list (option A)) (x : A) :
  In x (dropna col) <-> In (Some x) col.
Proof.
  induction col as [|[y|] t IH]; simpl.
  - tauto.
  - rewrite IH. split; [intros [->|H]; auto|intros [[= ->]|H]; auto].
  - rewrite IH. split; [auto|intros [[=]|H]; exact H].
Qed.

Section SortedUnique.
Context {K : Type} {C : KeyCmp K} {O : KeyOrder K}.
Variable eqb : K -> K -> bool.
Hypothesis eqb_eq : forall a b, eqb a b = true <-> a = b.

Lemma unique_In (col : list K) (x : K) : In x (unique eqb col) <-> In x col.
Proof.
  unfold unique. split.
  - apply subseq_incl, drop_duplicates_subseq.
  - intros H.
    destruct (drop_duplicates_from_keeps eqb (fun a => proj2 (eqb_eq a a) eq_refl)
                [] col x H) as [E|(y & Hy & E)]; [discriminate|].
    apply eqb_eq in E. now subst.
Qed.

Lemma unique_NoDup (col : list K) : NoDup (unique eqb col).
Proof.
  unfold unique, drop_duplicates.
  destruct (drop_duplicates_from_clean eqb [] col) as [N _].
  induction (drop_duplicates_from eqb [] col) as [|x t IH]; [constructor|].
  destruct N as [N1 N2]. constructor; [|now apply IH].
  intros I. specialize (N1 x I).
  rewrite (proj2 (eqb_eq x x) eq_refl) in N1. discriminate.
Qed.

Lemma insert_sorted_perm (x : K) (l : list K) :
  Permutation (insert_sorted x l) (x :: l).
Proof.
  induction l as [|y t IH]; simpl; [reflexivity|].
  destruct (kcmp x y); try reflexivity.
  rewrite IH. constructor.
Qed.

Lemma sorted_perm (l : list K) : Permutation (sorted l) l.
Proof.
  induction l as [|x t IH]; simpl; [constructor|].
  rewrite insert_sorted_perm. now constructor.
Qed.

Lemma kle_trans (a b c : K) :
  kcmp a b <> Gt -> kcmp b c <> Gt -> kcmp a c <> Gt.
Proof.
  intros H1 H2.
  destruct (kcmp a b) eqn:E1; [| |congruence].
  - apply kcmp_eq in E1. now subst.
  - destruct (kcmp b c) eqn:E2; [| |congruence].
    + apply kcmp_eq in E2. subst. congruence.
    + rewrite (kcmp_trans _ _ _ E1 E2). discriminate.
Qed.

Lemma insert_sorted_sorted (x : K) (l : list K) :
  StronglySorted (fun a b => kcmp a b <> Gt) l ->
  StronglySorted (fun a b => kcmp a b <> Gt) (insert_sorted x l).
Proof.
  induction 1 as [|y t S IH F]; simpl; [repeat constructor|].
  assert (G : kcmp x y <> Gt ->
              StronglySorted (fun a b => kcmp a b <> Gt) (x :: y :: t)).
  { intros L. constructor; [now constructor|].
    constructor; [exact L|].
    eapply Forall_impl; [|exact F]. intros a Ha. exact (kle_trans _ _ _ L Ha). }
  destruct (kcmp x y) eqn:E.
  - apply G. congruence.
  - apply G. congruence.
  - constructor; [assumption|].
    apply Forall_forall. intros a Ha.
    apply (Permutation_in _ (insert_sorted_perm x t)) in Ha as [<-|Ha].
    + rewrite (kcmp_gt_lt _ _ E). discriminate.
    + rewrite Forall_forall in F. now apply F.
Qed.

Lemma sorted_sorted (l : list K) :
  StronglySorted (fun a b => kcmp a b <> Gt) (sorted l).
Proof.
  induction l as [|x t IH]; simpl; [constructor|].
  now apply insert_sorted_sorted.
Qed.

Lemma sorted_strict (l : list K) :
  NoDup l -> StronglySorted (fun a b => kcmp a b = Lt) (sorted l).
Proof.
  intros N.
  assert (N' : NoDup (sorted l))
    by exact (Permutation_NoDup (Permutation_sym (sorted_perm l)) N).
  pose proof (sorted_sorted l) as S.
  induction S as [|x t S IH F]; [constructor|].
  apply NoDup_cons_iff in N' as [N1 N2].
  constructor; [now apply IH|].
  rewrite Forall_forall in *. intros a Ha.
  specialize (F a Ha). destruct (kcmp x a) eqn:E; [|reflexivity|congruence].
  apply kcmp_eq in E. subst. contradiction.
Qed.

(** [sorted(col.unique())]: strictly ascending, with the values of the
    column. *)
Lemma sorted_unique_spec (col : list K) :
  StronglySorted (fun a b => kcmp a b = Lt) (sorted (unique eqb col))
  /\ forall x, In x (sorted (unique eqb col)) <-> In x col.
Proof.
  split.
  - apply sorted_strict, unique_NoDup.
  - intros x. split; intros H.
    + apply unique_In. exact (Permutation_in _ (sorted_perm _) H).
    + apply (Permutation_in _ (Permutation_sym (sorted_perm _))).
      now apply unique_In.
Qed.
End SortedUnique.

(** X1. The years offered in the sidebar are in strictly ascending order,
    and a year is offered exactly when some row of the frame has it; rows
    without a year add nothing. *)
Theorem years_spec (df : list Row) :
  StronglySorted Z.lt (years df)
  /\ forall y, In y (years df) <-> exists r, In r df /\ Year r = Some y.
Proof.
  destruct (sorted_unique_spec Z.eqb Z.eqb_eq (dropna (map Year df)))
    as [S M].
  split.
  - eapply StronglySorted_weaken; [|exact S].
    intros a b. apply Z.compare_lt_iff.
  - intros y. unfold years. rewrite M, dropna_In, in_map_iff.
    split; intros (r & H1 & H2); eauto.
Qed.

Lemma regions_members (df : list Row) (x : string) :
  In x (regions df) <-> exists r, In r df /\ Region r = x.
Proof.
  unfold regions.
  rewrite (proj2 (sorted_unique_spec String.eqb String.eqb_eq (map Region df))).
  rewrite in_map_iff. split; intros (r & H1 & H2); eauto.
Qed.

Lemma categories_members (df : list Row) (x : string) :
  In x (categories df) <-> exists r, In r df /\ Category r = x.
Proof.
  unfold categories.
  rewrite (proj2 (sorted_unique_spec String.eqb String.eqb_eq
                    (map Category df))).
  rewrite in_map_iff. split; intros (r & H1 & H2); eauto.
Qed.

(** X2. The regions and the categories offered in the sidebar are in
    strictly ascending order, each once, and are exactly the regions and the
    categories that occur in the frame. *)
Theorem regions_categories_spec (df : list Row) :
  StronglySorted (fun a b => String.compare a b = Lt) (regions df)
  /\ (forall x, In x (regions df) <-> exists r, In r df /\ Region r = x)
  /\ StronglySorted (fun a b => String.compare a b = Lt) (categories df)
  /\ (forall x, In x (categories df) <-> exists r, In r df /\ Category r = x).
Proof.
  destruct (sorted_unique_spec String.eqb String.eqb_eq (map Region df))
    as [S1 M1].
  destruct (sorted_unique_spec String.eqb String.eqb_eq (map Category df))
    as [S2 M2].
  split; [exact S1|]. split; [|split; [exact S2|]].
  - intros x. unfold regions. rewrite M1, in_map_iff.
    split; intros (r & H1 & H2); eauto.
  - intros x. unfold categories. rewrite M2, in_map_iff.
    split; intros (r & H1 & H2); eauto.
Qed.

Lemma last_of_sorted (l : list Z) :
  StronglySorted Z.lt l ->
  (l = [] /\ selectbox l (Z.of_nat (List.length l) - 1) = None)
  \/ exists y, selectbox l (Z.of_nat (List.length l) - 1) = Some y
               /\ In y l /\ forall x, In x l -> (x <= y)%Z.
Proof.
  intros Srt. destruct l as [|a t] eqn:El; [left; split; reflexivity|].
  right. rewrite <- El in *.
  destruct (exists_last (l := l)) as (l' & y & E); [congruence|].
  exists y. unfold selectbox.
  assert (Len : List.length l = S (List.length l'))
    by (rewrite E, length_app; simpl; lia).
  rewrite Len.
  replace (Z.of_nat (S (List.length l')) - 1)%Z
    with (Z.of_nat (List.length l')) by lia.
  destruct (Z.ltb_spec (Z.of_nat (List.length l')) 0); [lia|].
  rewrite Nat2Z.id, E. split; [|split].
  - rewrite nth_error_app2, Nat.sub_diag; [reflexivity|lia].
  - apply in_or_app. right. now left.
  - intros x Hx. rewrite E in Srt. apply in_app_or in Hx as [Hx|[<-|[]]]; [|lia].
    apply Z.lt_le_incl.
    apply (StronglySorted_app_inv _ _ _ Srt x y Hx). now left.
Qed.

(** X3. The year selected by default is the latest year of the frame: no
    year is offered exactly when no row has a year, and otherwise the
    default is a year of some row and no row has a later one. *)
Theorem default_year_latest (df : list Row) :
  (default_year df = None <-> forall r, In r df -> Year r = None)
  /\ forall y, default_year df = Some y ->
       (exists r, In r df /\ Year r = Some y)
       /\ forall r y', In r df -> Year r = Some y' -> (y' <= y)%Z.
Proof.
  assert (S : StronglySorted Z.lt (years df)).
  { eapply StronglySorted_weaken;
      [|exact (proj1 (sorted_unique_spec Z.eqb Z.eqb_eq
                        (dropna (map Year df))))].
    intros a b. apply Z.compare_lt_iff. }
  assert (M : forall y, In y (years df)
                        <-> exists r, In r df /\ Year r = Some y).
  { intros y. unfold years.
    rewrite (proj2 (sorted_unique_spec Z.eqb Z.eqb_eq (dropna (map Year df)))).
    rewrite dropna_In, in_map_iff.
    split; intros (r & H1 & H2); eauto. }
  unfold default_year.
  destruct (last_of_sorted (years df) S) as [[E1 E2]|(y & E1 & I & L)].
  - rewrite E2. split.
    + split; [intros _|reflexivity].
      intros r Hr. destruct (Year r) as [y|] eqn:Ey; [|reflexivity].
      assert (X : In y (years df)) by (apply M; eauto).
      rewrite E1 in X. destruct X.
    + discriminate.
  - rewrite E1. split.
    + split; [discriminate|]. intros N.
      apply M in I as (r & Hr & Ey). rewrite (N r Hr) in Ey. discriminate.
    + intros y0 [= <-]. split; [now apply M|].
      intros r y' Hr Ey. apply L, M. eauto.
Qed.

(** ** Selections *)

Lemma subseq_filter_impl {A : Type} (p q : A -> bool) (l : list A) :
  (forall x, In x l -> p x = true -> q x = true) ->
  subseq (filter p l) (filter q l).
Proof.
  induction l as [|x l IH]; simpl; intros H; [constructor|].
  assert (IH' : subseq (filter p l) (filter q l))
    by (apply IH; intros z Hz; apply H; now right).
  destruct (p x) eqn:P.
  - rewrite (H x (or_introl eq_refl) P). now constructor.
  - destruct (q x); [now constructor|assumption].
Qed.

Lemma filter_filter_and {A : Type} (p q : A -> bool) (l : list A) :
  filter p (filter q l) = filter (fun x => q x && p x) l.
Proof.
  induction l as [|x l IH]; simpl; [reflexivity|].
  destruct (q x); simpl; [destruct (p x)|]; now rewrite IH.
Qed.

Lemma selectedb_incl (y : Z) (regs regs' cats cats' : list string) (r : Row) :
  incl regs regs' -> incl cats cats' ->
  selectedb y regs cats r = true -> selectedb y regs' cats' r = true.
Proof.
  intros Hr Hc. rewrite !selectedb_spec. unfold selected.
  intros (H1 & H2 & H3). auto.
Qed.

(** X4. With every region and every category of the frame selected, as by
    default, the view is the rows of the selected year and nothing else is
    filtered; the comparison view is then the view of the year before under
    the same selection. *)
Theorem default_selection_filters_by_year (df : list Row) (y : Z) :
  filtered_df df y (regions df) (categories df) = filter (year_is y) df
  /\ previous_df df y = filtered_df df (y - 1) (regions df) (categories df).
Proof.
  pose proof (regions_members df) as MR.
  pose proof (categories_members df) as MC.
  assert (E : forall z, filtered_df df z (regions df) (categories df)
                        = filter (year_is z) df).
  { intros z. rewrite filtered_df_filter. apply filter_ext_in.
    intros r Hr. unfold selectedb.
    rewrite (proj2 (isin_spec (Region r) (regions df)));
      [|apply MR; eauto].
    rewrite (proj2 (isin_spec (Category r) (categories df)));
      [|apply MC; eauto].
    now rewrite !andb_true_r. }
  split; [apply E|]. rewrite E. apply previous_df_filter.
Qed.

(** X5. Selecting fewer regions or categories only removes rows from the
    view, and filtering the wider view by the narrower selection gives the
    narrower view. *)
Theorem narrower_selection_smaller_view
    (D : list Row) (y : Z) (regs regs' cats cats' : list string) :
  incl regs regs' ->
  incl cats cats' ->
  subseq (filtered_df D y regs cats) (filtered_df D y regs' cats')
  /\ filtered_df (filtered_df D y regs' cats') y regs cats
     = filtered_df D y regs cats.
Proof.
  intros Hr Hc. rewrite !filtered_df_filter. split.
  - apply subseq_filter_impl. intros r _.
    now apply selectedb_incl.
  - rewrite filter_filter_and. apply filter_ext. intros r.
    destruct (selectedb y regs cats r) eqn:E.
    + now rewrite (selectedb_incl y regs regs' cats cats' r Hr Hc E).
    + apply andb_false_r.
Qed.

Lemma narrower_selection_sample :
  subseq (filtered_df sample_df 2023 ["East"%string] ["Tech"%string])
         (filtered_df sample_df 2023 ["East"%string; "West"%string]
            ["Tech"%string; "Office"%string])
  /\ filtered_df
       (filtered_df sample_df 2023 ["East"%string; "West"%string]
          ["Tech"%string; "Office"%string])
       2023 ["East"%string] ["Tech"%string]
     = filtered_df sample_df 2023 ["East"%string] ["Tech"%string].
Proof.
  apply narrower_selection_smaller_view.
  - intros x [<-|[]]. simpl. tauto.
  - intros x [<-|[]]. simpl. tauto.
Defined.

(** X6. The view of the selected year and the comparison view never share a
    row, and the comparison view holds no row of the selected year. *)
Theorem view_and_comparison_disjoint
    (D : list Row) (y : Z) (regs cats : list string) :
  (forall r, ~ (In r (filtered_df D y regs cats) /\ In r (previous_df D y)))
  /\ filtered_df (previous_df D y) y regs cats = [].
Proof.
  split.
  - intros r [H1 H2].
    rewrite filtered_df_filter in H1. rewrite previous_df_filter in H2.
    apply filter_In in H1 as [_ H1]. apply filter_In in H2 as [_ H2].
    apply selectedb_spec in H1 as [H1 _]. apply year_is_spec in H2.
    rewrite H1 in H2. injection H2. lia.
  - rewrite filtered_df_filter, previous_df_filter. apply filter_none.
    intros r Hr. apply filter_In in Hr as [_ Hr].
    apply year_is_spec in Hr. unfold selectedb, year_is. rewrite Hr.
    destruct (Z.eqb_spec (y - 1) y); [lia|reflexivity].
Qed.

(** ** Rollups and narrowed views *)

Lemma in_group_string (f : Row -> string) (x : string) (r : Row) :
  in_group (fun r0 => Some (f r0)) x r = String.eqb (f r) x.
Proof.
  destruct (in_group (fun r0 => Some (f r0)) x r) eqn:G.
  - apply in_group_spec in G as [= ->]. symmetry. apply String.eqb_refl.
  - symmetry. apply not_true_is_false. intros E. apply String.eqb_eq in E.
    assert (G' : in_group (fun r0 => Some (f r0)) x r = true)
      by (apply in_group_spec; now rewrite E).
    congruence.
Qed.

Lemma region_group_narrowed
    (D : list Row) (y : Z) (regs cats : list string) (x : string) :
  In x regs ->
  filter (in_group (fun r => Some (Region r)) x) (filtered_df D y regs cats)
  = filtered_df D y [x] cats.
Proof.
  intros Hx. rewrite !filtered_df_filter, filter_filter_and.
  apply filter_ext. intros r. rewrite in_group_string.
  unfold selectedb. simpl. rewrite orb_false_r.
  destruct (String.eqb_spec (Region r) x) as [E|E].
  - rewrite (proj2 (isin_spec (Region r) regs)) by now rewrite E.
    now rewrite andb_true_r.
  - now rewrite !andb_false_r.
Qed.

Lemma category_group_narrowed
    (D : list Row) (y : Z) (regs cats : list string) (x : string) :
  In x cats ->
  filter (in_group (fun r => Some (Category r)) x) (filtered_df D y regs cats)
  = filtered_df D y regs [x].
Proof.
  intros Hx. rewrite !filtered_df_filter, filter_filter_and.
  apply filter_ext. intros r. rewrite in_group_string.
  unfold selectedb. simpl. rewrite orb_false_r.
  destruct (String.eqb_spec (Category r) x) as [E|E].
  - rewrite (proj2 (isin_spec (Category r) cats)) by now rewrite E.
    now rewrite andb_true_r.
  - now rewrite !andb_false_r.
Qed.

(** X7. Every bar of the regional chart belongs to a selected region, and
    narrowing the selection to that region alone gives a regional chart with
    that bar only, unchanged. *)
Theorem region_bar_is_narrowed_kpi
    (D : list Row) (y : Z) (regs cats : list string) (x : string) (s p : Q) :
  In (x, (s, p)) (region (filtered_df D y regs cats)) ->
  In x regs
  /\ region (filtered_df D y [x] cats) = [(x, (s, p))].
Proof.
  intros I.
  assert (Hx : In x regs).
  { assert (K : In x (map fst (region (filtered_df D y regs cats))))
      by (change x with (fst (x, (s, p))); now apply in_map).
    apply groupby_sum_keys in K as (r & Hr & [= <-]).
    rewrite filtered_df_filter in Hr. apply filter_In in Hr as [_ Hr].
    now apply selectedb_spec in Hr as (_ & Hr & _). }
  split; [exact Hx|]. unfold region.
  rewrite <- (region_group_narrowed D y regs cats x Hx).
  now apply groupby_sum_of_group.
Qed.

Lemma region_bar_sample :
  In "East"%string ["East"%string; "West"%string]
  /\ region (filtered_df sample_df 2023 ["East"%string]
               ["Tech"%string; "Office"%string])
     = [("East"%string, (100, 20))].
Proof.
  apply (region_bar_is_narrowed_kpi sample_df 2023
           ["East"%string; "West"%string] ["Tech"%string; "Office"%string]).
  simpl. left. reflexivity.
Defined.

(** X8. Every slice of the category chart belongs to a selected category,
    and narrowing the selection to that category alone gives a category
    chart with that slice only, unchanged. *)
Theorem category_slice_is_narrowed_kpi
    (D : list Row) (y : Z) (regs cats : list string) (x : string) (p : Q) :
  In (x, p) (category (filtered_df D y regs cats)) ->
  In x cats
  /\ category (filtered_df D y regs [x]) = [(x, p)].
Proof.
  intros I.
  assert (Hx : In x cats).
  { assert (K : In x (map fst (category (filtered_df D y regs cats))))
      by (change x with (fst (x, p)); now apply in_map).
    apply groupby_sum_keys in K as (r & Hr & [= <-]).
    rewrite filtered_df_filter in Hr. apply filter_In in Hr as [_ Hr].
    now apply selectedb_spec in Hr as (_ & _ & Hr). }
  split; [exact Hx|]. unfold category.
  rewrite <- (category_group_narrowed D y regs cats x Hx).
  now apply groupby_sum_of_group.
Qed.

Lemma category_slice_sample :
  In "Office"%string ["Tech"%string; "Office"%string]
  /\ category (filtered_df sample_df 2023 ["East"%string; "West"%string]
                 ["Office"%string])
     = [("Office"%string, - (50))].
Proof.
  apply (category_slice_is_narrowed_kpi sample_df 2023
           ["East"%string; "West"%string] ["Tech"%string; "Office"%string]).
  simpl. left. reflexivity.
Defined.

(** ** Views of a loaded frame *)

Lemma loaded_row_year
    (to_datetime : string -> option Timestamp) (csv : list RawRow) (row : Row) :
  In row (load_data to_datetime csv) ->
  Year row = option_map ts_year (Order_Date row).
Proof.
  unfold load_data. intros H. apply in_map_iff in H as (r & <- & _).
  reflexivity.
Qed.

Lemma loaded_view_dates
    (to_datetime : string -> option Timestamp) (csv : list RawRow)
    (y : Z) (regs cats : list string) (row : Row) :
  In row (filtered_df (load_data to_datetime csv) y regs cats) ->
  exists t, Order_Date row = Some t /\ ts_year t = y.
Proof.
  rewrite filtered_df_filter. intros H. apply filter_In in H as [H S].
  apply selectedb_spec in S as [S _].
  rewrite (loaded_row_year _ _ _ H) in S.
  destruct (Order_Date row) as [t|]; [|discriminate].
  exists t. split; [reflexivity|]. now injection S.
Qed.

(** X9. In a view of a loaded frame every month of the monthly chart lies in
    the selected year, and no row of the view is left out of it: every row
    has a date, of the selected year, and the month of that date has an
    entry. *)
Theorem monthly_of_loaded_view
    (to_datetime : string -> option Timestamp) (csv : list RawRow)
    (y : Z) (regs cats : list string) :
  let view := filtered_df (load_data to_datetime csv) y regs cats in
  (forall p s, In (p, s) (monthly_periods view) -> p_year p = y)
  /\ (forall r, In r view ->
        exists t, Order_Date r = Some t /\ ts_year t = y
                  /\ In (mkPeriod y (ts_month t))
                       (map fst (monthly_periods view))).
Proof.
  intros view. split.
  - intros p s I.
    assert (K : In p (map fst (monthly_periods view)))
      by (change p with (fst (p, s)); now apply in_map).
    apply groupby_sum_keys in K as (r & Hr & E).
    apply loaded_view_dates in Hr as (t & E1 & E2).
    unfold month_of in E. rewrite E1 in E. simpl in E.
    injection E as <-. exact E2.
  - intros r Hr.
    destruct (loaded_view_dates _ _ _ _ _ _ Hr) as (t & E1 & E2).
    exists t. split; [exact E1|]. split; [exact E2|].
    apply groupby_sum_keys. exists r. split; [exact Hr|].
    unfold month_of. rewrite E1. simpl. unfold to_period_M. now rewrite E2.
Qed.

(** ** Loaded rows *)

Lemma subseq_length {A : Type} (l1 l2 : list A) :
  subseq l1 l2 -> (List.length l1 <= List.length l2)%nat.
Proof. induction 1; simpl; lia. Qed.

(** X11. After the duplicate removal of the loader no two rows have all
    fields equal, every row of the source is still there, itself or as the
    equal row before it, the first row is always kept, and the loaded frame
    has as many rows as are kept, never more than the source. *)
Theorem drop_duplicates_result
    (to_datetime : string -> option Timestamp) (csv : list RawRow) :
  no_duplicates raw_eqb (drop_duplicates raw_eqb csv)
  /\ (forall r, In r csv ->
        exists r', In r' (drop_duplicates raw_eqb csv) /\ raw_eqb r r' = true)
  /\ hd_error (drop_duplicates raw_eqb csv) = hd_error csv
  /\ List.length (load_data to_datetime csv)
     = List.length (drop_duplicates raw_eqb csv)
  /\ (List.length (load_data to_datetime csv) <= List.length csv)%nat.
Proof.
  split; [apply drop_duplicates_from_clean|].
  split.
  { intros r I.
    destruct (drop_duplicates_from_keeps raw_eqb raw_eqb_refl [] csv r I)
      as [H|H]; [discriminate|exact H]. }
  split; [destruct csv; reflexivity|].
  unfold load_data. rewrite length_map. split; [reflexivity|].
  apply subseq_length, drop_duplicates_subseq.
Qed.

(** ** Signs of margin and growth *)

(** X12. When the prior-year revenue is positive, the growth is positive,
    and an increase is reported, exactly when the revenue of the view
    exceeds the prior-year revenue. *)
Theorem growth_with_positive_prior (view previous : list Row) :
  0 < prev_revenue previous ->
  exists g,
    revenue_growth view previous = Ok g
    /\ (0 < g <-> prev_revenue previous < total_revenue view)
    /\ (growth_report view previous = Ok (Increased g)
        <-> prev_revenue previous < total_revenue view).
Proof.
  intros P.
  destruct (revenue_growth_cases view previous) as [[Z0 _]|[N E]].
  { rewrite Z0 in P. discriminate. }
  unfold growth_report. rewrite E. eexists. split; [reflexivity|].
  set (t := total_revenue view) in *. set (p := prev_revenue previous) in *.
  set (g := (t - p) / p * 100).
  assert (G : g * p == (t - p) * 100) by (unfold g; field; exact N).
  assert (S1 : 0 < g <-> p < t) by (split; intros H; nra).
  split; [exact S1|].
  rewrite <- S1. simpl. unfold growth_banner.
  pose proof (Qgtb_spec g 0) as X. destruct (Qgtb g 0).
  - split; [intros _; now apply X|reflexivity].
  - split; [discriminate|]. intros H. apply X in H. discriminate.
Qed.

Lemma growth_with_positive_prior_sample :
  exists g,
    revenue_growth
      (filtered_df sample_df 2023 ["East"%string; "West"%string]
         ["Tech"%string; "Office"%string])
      (previous_df sample_df 2023) = Ok g
    /\ (0 < g
        <-> prev_revenue (previous_df sample_df 2023)
            < total_revenue
                (filtered_df sample_df 2023 ["East"%string; "West"%string]
                   ["Tech"%string; "Office"%string]))
    /\ (growth_report
          (filtered_df sample_df 2023 ["East"%string; "West"%string]
             ["Tech"%string; "Office"%string])
          (previous_df sample_df 2023) = Ok (Increased g)
        <-> prev_revenue (previous_df sample_df 2023)
            < total_revenue
                (filtered_df sample_df 2023 ["East"%string; "West"%string]
                   ["Tech"%string; "Office"%string])).
Proof.
  apply growth_with_positive_prior. reflexivity.
Defined.

(** X13. When the prior-year revenue is negative the sign of the growth is
    turned round: an increase is reported exactly when the revenue of the
    view is below the prior-year revenue. *)
Theorem growth_with_negative_prior (view previous : list Row) :
  prev_revenue previous < 0 ->
  exists g,
    revenue_growth view previous = Ok g
    /\ (0 < g <-> total_revenue view < prev_revenue previous)
    /\ (growth_report view previous = Ok (Increased g)
        <-> total_revenue view < prev_revenue previous).
Proof.
  intros P.
  destruct (revenue_growth_cases view previous) as [[Z0 _]|[N E]].
  { rewrite Z0 in P. discriminate. }
  unfold growth_report. rewrite E. eexists. split; [reflexivity|].
  set (t := total_revenue view) in *. set (p := prev_revenue previous) in *.
  set (g := (t - p) / p * 100).
  assert (G : g * p == (t - p) * 100) by (unfold g; field; exact N).
  assert (S1 : 0 < g <-> t < p) by (split; intros H; nra).
  split; [exact S1|].
  rewrite <- S1. simpl. unfold growth_banner.
  pose proof (Qgtb_spec g 0) as X. destruct (Qgtb g 0).
  - split; [intros _; now apply X|reflexivity].
  - split; [discriminate|]. intros H. apply X in H. discriminate.
Qed.

Lemma growth_with_negative_prior_sample :
  exists g,
    revenue_growth (filtered_df refund_df 2023 ["East"%string] ["Tech"%string])
      (previous_df refund_df 2023) = Ok g
    /\ (0 < g
        <-> total_revenue
              (filtered_df refund_df 2023 ["East"%string] ["Tech"%string])
            < prev_revenue (previous_df refund_df 2023))
    /\ (growth_report
          (filtered_df refund_df 2023 ["East"%string] ["Tech"%string])
          (previous_df refund_df 2023) = Ok (Increased g)
        <-> total_revenue
              (filtered_df refund_df 2023 ["East"%string] ["Tech"%string])
            < prev_revenue (previous_df refund_df 2023)).
Proof.
  apply growth_with_negative_prior. reflexivity.
Defined.

(** X14. For a year whose preceding year has no row in the frame, the
    comparison view is empty and the banner reports a decline by 0, whatever
    the selection and the revenue of the view. *)
Theorem first_year_reports_decline
    (D : list Row) (y : Z) (regs cats : list string) :
  (forall r, In r D -> Year r <> Some (y - 1)%Z) ->
  previous_df D y = []
  /\ growth_report (filtered_df D y regs cats) (previous_df D y)
     = Ok (Declined 0).
Proof.
  intros H.
  assert (E : previous_df D y = []).
  { rewrite previous_df_filter. apply filter_none. intros r Hr.
    destruct (year_is (y - 1) r) eqn:Y; [|reflexivity].
    apply year_is_spec in Y. now apply H in Y. }
  split; [exact E|]. rewrite E. reflexivity.
Qed.

Lemma first_year_sample :
  previous_df sample_df 2022 = []
  /\ growth_report
       (filtered_df sample_df 2022 ["West"%string] ["Tech"%string])
       (previous_df sample_df 2022)
     = Ok (Declined 0).
Proof.
  apply first_year_reports_decline.
  intros r Hr. simpl in Hr.
  repeat (destruct Hr as [<-|Hr]; [discriminate|]). destruct Hr.
Defined.



(** ** Rankings that list every product *)

Lemma sum_perm (l l' : list Q) : Permutation l l' -> sum l == sum l'.
Proof.
  induction 1 as [|x l l' _ IH|x y l|l l' l'' _ IH1 _ IH2]; simpl.
  - reflexivity.
  - now rewrite IH.
  - ring.
  - now rewrite IH1.
Qed.

(** X16. When the view has no more than [n] distinct products, the ranking
    is the list of all grouped product sums rearranged: every product of the
    view is listed, none is cut off. *)
Theorem top_products_complete (n : nat) (view : list Row) :
  (nunique (map Product_Name view) <= n)%nat ->
  Permutation (top_products_n n view) (product_sales view)
  /\ (forall name, In name (map Product_Name view)
                   <-> In name (map fst (top_products_n n view))).
Proof.
  intros L.
  assert (P : Permutation (top_products_n n view) (product_sales view)).
  { unfold top_products_n, top_products_with, head.
    rewrite firstn_all2; [apply sort_values_desc_perm|].
    rewrite (Permutation_length (sort_values_desc_perm _)).
    now rewrite product_sales_length. }
  split; [exact P|].
  intros name. rewrite <- product_sales_names.
  split; apply Permutation_in, Permutation_map;
    [apply Permutation_sym|]; exact P.
Qed.

Lemma top_products_complete_sample :
  Permutation (top_products_n 5 sample_df) (product_sales sample_df)
  /\ (forall name, In name (map Product_Name sample_df)
                   <-> In name (map fst (top_products_n 5 sample_df))).
Proof.
  apply top_products_complete. vm_compute. lia.
Defined.

(** ** Order of the rows *)

Lemma filter_perm {A : Type} (p : A -> bool) (l l' : list A) :
  Permutation l l' -> Permutation (filter p l) (filter p l').
Proof.
  induction 1 as [|x l l' _ IH|x y l|l l' l'' _ IH1 _ IH2]; simpl.
  - constructor.
  - destruct (p x); [now constructor|assumption].
  - destruct (p x), (p y); try reflexivity. constructor.
  - now transitivity (filter p l').
Qed.

Section RowOrder.
Context {R K V : Type} {C : KeyCmp K} {O : KeyOrder K}.
Variable add : V -> V -> V.
Variable m : V -> Q.
Hypothesis m_add : forall a b, m (add a b) == m a + m b.
Variable key : R -> option K.
Variable val : R -> V.

Lemma strictly_sorted_equal (l1 l2 : list K) :
  StronglySorted (fun a b => kcmp a b = Lt) l1 ->
  StronglySorted (fun a b => kcmp a b = Lt) l2 ->
  (forall x, In x l1 <-> In x l2) ->
  l1 = l2.
Proof.
  intros S1. revert l2.
  induction S1 as [|a t1 S1 IH F1]; intros l2 S2 M.
  - destruct l2 as [|b t2]; [reflexivity|].
    destruct (proj2 (M b) (or_introl eq_refl)).
  - destruct S2 as [|b t2 S2 F2].
    + destruct (proj1 (M a) (or_introl eq_refl)).
    + rewrite Forall_forall in F1, F2.
      assert (E : a = b).
      { destruct (proj1 (M a) (or_introl eq_refl)) as [E|Ha]; [now symmetry|].
        destruct (proj2 (M b) (or_introl eq_refl)) as [E|Hb]; [assumption|].
        exfalso. apply (klt_irrefl a).
        exact (kcmp_trans _ _ _ (F1 b Hb) (F2 a Ha)). }
      subst b. f_equal. apply IH; [exact S2|].
      intros x. split; intros Hx.
      * destruct (proj1 (M x) (or_intror Hx)) as [<-|H]; [|exact H].
        exfalso. exact (klt_irrefl a (F1 a Hx)).
      * destruct (proj2 (M x) (or_intror Hx)) as [<-|H]; [|exact H].
        exfalso. exact (klt_irrefl a (F2 a Hx)).
Qed.

(** The groups and, as values, their sums do not depend on the order of the
    rows. *)
Lemma groupby_sum_perm (view view' : list R) :
  Permutation view view' ->
  map fst (groupby_sum add key val view)
  = map fst (groupby_sum add key val view')
  /\ forall k s s',
       In (k, s) (groupby_sum add key val view) ->
       In (k, s') (groupby_sum add key val view') ->
       m s == m s'.
Proof.
  intros P. split.
  - apply strictly_sorted_equal; try apply groupby_sum_sorted.
    intros k. rewrite !groupby_sum_keys.
    split; intros (r & I & E); exists r; split; try assumption.
    + exact (Permutation_in _ P I).
    + exact (Permutation_in _ (Permutation_sym P) I).
  - intros k s s' I I'.
    rewrite (groupby_sum_value add m m_add key val view k s I).
    rewrite (groupby_sum_value add m m_add key val view' k s' I').
    apply sum_perm, Permutation_map, filter_perm, P.
Qed.
End RowOrder.

(** X17. The groups of the rollups do not depend on the order of the rows
    of the view: rearranging the rows leaves the months, the categories, the
    regions and the products of the charts, and their order, the same. *)
Theorem rollups_ignore_row_order (view view' : list Row) :
  Permutation view view' ->
  map fst (monthly view) = map fst (monthly view')
  /\ map fst (category view) = map fst (category view')
  /\ map fst (region view) = map fst (region view')
  /\ map fst (product_sales view) = map fst (product_sales view').
Proof.
  intros P.
  pose proof (groupby_sum_perm Qplus (fun q => q)
                (fun a b => Qeq_refl (a + b)) month_of Sales view view' P)
    as [M1 _].
  pose proof (groupby_sum_perm Qplus (fun q => q)
                (fun a b => Qeq_refl (a + b))
                (fun r => Some (Category r)) Profit view view' P) as [C1 _].
  pose proof (groupby_sum_perm add2 fst (fun a b => Qeq_refl (fst a + fst b))
                (fun r => Some (Region r)) (fun r => (Sales r, Profit r))
                view view' P) as [R1 _].
  pose proof (groupby_sum_perm Qplus (fun q => q)
                (fun a b => Qeq_refl (a + b))
                (fun r => Some (Product_Name r)) Sales view view' P)
    as [P1 _].
  split; [|split; [exact C1|split; [exact R1|exact P1]]].
  unfold monthly. rewrite !map_map. simpl.
  rewrite <- !(map_map fst period_str). unfold monthly_periods.
  now rewrite M1.
Qed.

Lemma rollups_ignore_row_order_sample :
  map fst (monthly tie_view) = map fst (monthly tie_view_swapped)
  /\ map fst (category tie_view) = map fst (category tie_view_swapped)
  /\ map fst (region tie_view) = map fst (region tie_view_swapped)
  /\ map fst (product_sales tie_view)
     = map fst (product_sales tie_view_swapped).
Proof.
  apply rollups_ignore_row_order. vm_compute. apply perm_swap.
Defined.

(** ** Animated cards *)

Lemma linspace_shape (start stop : Q) (d : nat) :
  linspace start stop (S (S d))
  = map (fun k => inject_Z (Z.of_nat k)
                  * ((stop - start) / inject_Z (Z.of_nat (S d))) + start)
        (seq 0 (S d))
    ++ [stop].
Proof. reflexivity. Qed.

(** X18. A card is written 40 times, each with the label and the suffix
    given; the last card is made from the value itself, and it is what the
    placeholder ends showing. *)
Theorem animated_metric_frames
    (fmt : Q -> string) (label : string) (value : Q) (suffix : string) :
  List.length (animated_metric fmt label value suffix) = 40%nat
  /\ (forall c, In c (animated_metric fmt label value suffix) ->
        card_label c = label /\ card_suffix c = suffix)
  /\ nth_error (animated_metric fmt label value suffix) 39
     = Some (mkCard label (fmt value) suffix)
  /\ placeholder_after (animated_metric fmt label value suffix)
     = Some (mkCard label (fmt value) suffix).
Proof.
  unfold animated_metric. rewrite (linspace_shape 0 value 38).
  split; [|split; [|split]].
  - rewrite length_map, length_app, length_map, length_seq. reflexivity.
  - intros c Hc. apply in_map_iff in Hc as (i & <- & Hi). simpl.
    split; reflexivity.
  - rewrite map_app.
    rewrite nth_error_app2; rewrite !length_map, length_seq;
      [reflexivity|lia].
  - unfold placeholder_after. rewrite map_app, fold_left_app. reflexivity.
Qed.

(** ** Selections as sets *)

(** X19. Only the members of the selected regions and categories count:
    selections with the same members, in any order and with any repetition,
    give the same view. *)
Theorem selection_is_a_set
    (D : list Row) (y : Z) (regs regs' cats cats' : list string) :
  (forall x, In x regs <-> In x regs') ->
  (forall x, In x cats <-> In x cats') ->
  filtered_df D y regs cats = filtered_df D y regs' cats'.
Proof.
  intros Hr Hc. rewrite !filtered_df_filter. apply filter_ext. intros r.
  destruct (selectedb y regs cats r) eqn:E; symmetry.
  - apply selectedb_spec. apply selectedb_spec in E as (E1 & E2 & E3).
    repeat split; [exact E1|now apply Hr|now apply Hc].
  - apply not_true_is_false. intros E'. apply selectedb_spec in E'.
    destruct E' as (E1 & E2 & E3).
    assert (X : selectedb y regs cats r = true).
    { apply selectedb_spec. repeat split; [exact E1|now apply Hr|now apply Hc]. }
    congruence.
Qed.

Lemma selection_is_a_set_sample :
  filtered_df sample_df 2023 ["East"%string; "West"%string] ["Tech"%string]
  = filtered_df sample_df 2023 ["West"%string; "East"%string; "West"%string]
      ["Tech"%string; "Tech"%string].
Proof.
  apply selection_is_a_set; intros x; simpl; tauto.
Defined.
